(** * Remotion CLI renderer: a shallow embedding of [renderer/render-cli.js]

    The development follows the layout of the script: the JavaScript values
    it manipulates, the string and [path] primitives it calls, [parseArgs],
    [generateOutputPath], the webpack override, and finally [main] as a
    program in a small trace-and-outcome monad in which [process.exit]
    terminates the run. *)

From Stdlib Require Import ZArith Ascii String List Lia Floats.SpecFloat.
From stdpp Require Import base option list strings gmap.

Local Open Scope string_scope.
Local Open Scope Z_scope.

(** ** JavaScript strings

    A string of the script is the sequence of its code units, and a
    character here stands for one code unit: the strings covered are those
    whose code units are below 256, the ASCII command lines and messages
    among them.  On these, [length], [slice], [indexOf] and indexing by
    position are the operations below. *)

Module JsString.

Fixpoint drop (n : nat) (s : string) : string :=
  match n, s with
  | O, _ => s
  | S n', String _ s' => drop n' s'
  | S _, EmptyString => EmptyString
  end.

Fixpoint take (n : nat) (s : string) : string :=
  match n, s with
  | S n', String c s' => String c (take n' s')
  | _, _ => EmptyString
  end.

(** [s.slice(a)] and [s.slice(a, b)]; every call site of the script passes
    indices that are non-negative, the only case modelled. *)
Definition slice_from (s : string) (a : Z) : string := drop (Z.to_nat a) s.
Definition slice (s : string) (a b : Z) : string :=
  take (Z.to_nat (b - a)) (drop (Z.to_nat a) s).

(** [s.startsWith(p)] *)
Fixpoint startsWith (s p : string) {struct p} : bool :=
  match p, s with
  | EmptyString, _ => true
  | String a p', String b s' => if decide (a = b) then startsWith s' p' else false
  | String _ _, EmptyString => false
  end.

(** [s.indexOf(c)] for a one-character needle: [-1] when absent. *)
Fixpoint indexOf (s : string) (c : ascii) : Z :=
  match s with
  | EmptyString => -1
  | String a s' =>
      if decide (a = c) then 0
      else let i := indexOf s' c in if i <? 0 then -1 else i + 1
  end.

(** [s.includes(p)] *)
Fixpoint includes (s p : string) : bool :=
  startsWith s p ||
  match s with
  | EmptyString => false
  | String _ s' => includes s' p
  end.

Definition is_quote (c : ascii) : bool :=
  bool_decide (c = "034"%char) || bool_decide (c = "'"%char).

(** The end-anchored alternative of the quote-stripping expression: a
    quote character in last position is removed. *)
Fixpoint strip_trailing_quote (s : string) : string :=
  match s with
  | EmptyString => EmptyString
  | String c EmptyString => if is_quote c then EmptyString else s
  | String c s' => String c (strip_trailing_quote s')
  end.

(** The replace call of [parseArgs], whose pattern is a quote character
    (single or double) anchored at the start, or one anchored at the end,
    with the global flag and an empty replacement.  The scan first tries
    the start-anchored alternative at index 0, then looks for a quote
    sitting at the end of what is left; matches never overlap, so a
    one-character value made of a quote loses that quote once. *)
Definition strip_quotes (value : string) : string :=
  match value with
  | EmptyString => EmptyString
  | String c rest =>
      if is_quote c then strip_trailing_quote rest
      else strip_trailing_quote value
  end.

End JsString.

(** ** JavaScript values held by the [args] object *)

Inductive jsval :=
| JTrue
| JStr (s : string)
| JArr (items : list string).

Global Instance jsval_eq_dec : EqDecision jsval.
Proof. solve_decision. Defined.

(** Truthiness of a property read; [None] is [undefined]. *)
Definition truthy (v : option jsval) : bool :=
  match v with
  | None => false
  | Some JTrue => true
  | Some (JStr s) => negb (bool_decide (s = ""))
  | Some (JArr _) => true
  end.

(** [v[0]] on a value: the first element of an array, the first character of
    a string, [undefined] on a boolean. *)
Definition index0 (v : jsval) : option jsval :=
  match v with
  | JTrue => None
  | JStr EmptyString => None
  | JStr (String c _) => Some (JStr (String c EmptyString))
  | JArr [] => None
  | JArr (x :: _) => Some (JStr x)
  end.

(** JavaScript [Error] objects: the script reads [message] and [stack]. *)
Record error := mkError {
  err_name : string;
  err_message : string;
  err_stack : string
}.

Definition TypeError (msg : string) : error :=
  mkError "TypeError" msg ("TypeError: " +:+ msg).

(** What a [throw] statement or a rejected promise hands to a [catch]
    block.  JavaScript lets any value be thrown, and the script reads the
    [message] of what it catches: an object whose [message] is a string, as
    every [Error] is; another value, whose [message] is no string and has no
    [includes] method, with the text a template literal prints for that
    [message] ([undefined] when there is none); or [null] and [undefined],
    on which reading a property throws. *)
Inductive exn :=
| Raised (e : error)
| RaisedOther (message_text : string)
| RaisedNullish.

Coercion Raised : error >-> exn.

(** The type expected of [Some e] and [inl e] is known before [e] is
    looked at, so that an [Error] stands for the thrown value it is. *)
Arguments Some {A} & a.
Arguments inl {A B} & a.

(** ** [parseArgs] *)

(** [args[key] = value] for a string or [true], on an object created by
    the literal [{}]: the assignment adds or replaces an own property,
    except under the name [__proto__], where the setter inherited from
    [Object.prototype] takes it and ignores a value that is no object. *)
Definition set_property (key : string) (value : jsval) (args : gmap string jsval)
  : gmap string jsval :=
  if bool_decide (key = "__proto__") then args else <[key := value]> args.

(** One iteration of the [forEach] callback.  The [args] object is a finite
    map from the names of its own properties to their values; none of the
    names the script reads ([input], [output], [verbose], [_positional]) is
    inherited.  [_positional] lives in the same name space as the flags, as
    in the script. *)
Definition parseArg (args : gmap string jsval) (arg : string)
  : error + gmap string jsval :=
  if JsString.startsWith arg "--" then
    let eqIndex := JsString.indexOf arg "="%char in
    if 0 <? eqIndex then
      let key := JsString.slice arg 2 eqIndex in
      let value := JsString.slice_from arg (eqIndex + 1) in
      inr (set_property key (JStr (JsString.strip_quotes value)) args)
    else
      inr (set_property (JsString.slice_from arg 2) JTrue args)
  else if negb (truthy (args !! "_positional")) then
    inr (<["_positional" := JArr [arg]]> args)
  else
    match args !! "_positional" with
    | Some (JArr items) => inr (<["_positional" := JArr (items ++ [arg])]> args)
    | _ => inl (TypeError "args._positional.push is not a function")
    end.

Fixpoint parseArgs_from (args : gmap string jsval) (argv : list string)
  : error + gmap string jsval :=
  match argv with
  | [] => inr args
  | arg :: rest =>
      match parseArg args arg with
      | inl e => inl e
      | inr args' => parseArgs_from args' rest
      end
  end.

(** [argv] is [process.argv.slice(2)]. *)
Definition parseArgs (argv : list string) : error + gmap string jsval :=
  parseArgs_from ∅ argv.

(** [args.input || (args._positional && args._positional[0])] *)
Definition inputPath_of (args : gmap string jsval) : option jsval :=
  if truthy (args !! "input") then args !! "input"
  else if truthy (args !! "_positional")
       then args !! "_positional" ≫= index0
       else args !! "_positional".

(** ** JavaScript numbers

    A number is an IEEE 754 binary64 value; the arithmetic is the Standard
    Library's executable specification of it. *)

Definition number : Type := spec_float.

Definition prec : Z := 53.
Definition emax : Z := 1024.

Definition num_mul (x y : number) : number := SFmul prec emax x y.

(** The number written [m * 2^e]; integers are [number_of_Z n]. *)
Definition number_of_dyadic (m e : Z) : number :=
  binary_normalize prec emax m e false.
Definition number_of_Z (n : Z) : number := number_of_dyadic n 0.

Definition num_ltb (x y : number) : bool := SFltb x y.

(** [Math.round]: the integer closest to the argument, a tie going to the
    one closer to plus infinity; NaN, the infinities, the zeros and the
    integral values are returned as they are, and a result of zero keeps
    the sign of the argument.  A finite number with a negative exponent is
    below [2^53] in magnitude, so the rounded integer is a number. *)
Definition round_half_up (s : bool) (m : positive) (e : Z) : Z :=
  let v := if s then Z.neg m else Z.pos m in
  (2 * v + 2 ^ (- e)) / 2 ^ (1 - e).

Definition Math_round (x : number) : number :=
  match x with
  | S754_finite s m e =>
      if 0 <=? e then x
      else let n := round_half_up s m e in
           if n =? 0 then S754_zero s else number_of_Z n
  | _ => x
  end.

(** ** The POSIX flavour of Node's [path] module *)

Module Path.

Definition is_slash (c : ascii) : bool := bool_decide (c = "/"%char).

Definition chars : string -> list ascii := list_ascii_of_string.

(** Components between the separators, empty ones included. *)
Fixpoint split (s : string) : list string :=
  match s with
  | EmptyString => [EmptyString]
  | String c s' =>
      if is_slash c then EmptyString :: split s'
      else match split s' with
           | seg :: segs => String c seg :: segs
           | [] => [String c EmptyString]
           end
  end.

Fixpoint join_segments (segs : list string) : string :=
  match segs with
  | [] => EmptyString
  | [seg] => seg
  | seg :: rest => seg +:+ "/" +:+ join_segments rest
  end.

(** One component of [normalizeString]; the result under construction is
    kept as the stack of its components, last one first. *)
Definition normalize_step (allowAboveRoot : bool) (res : list string) (seg : string)
  : list string :=
  if bool_decide (seg = "") || bool_decide (seg = ".") then res
  else if bool_decide (seg = "..") then
    match res with
    | top :: below =>
        if bool_decide (top = "..")
        then (if allowAboveRoot then ".." :: res else res)
        else below
    | [] => if allowAboveRoot then [".."] else []
    end
  else seg :: res.

Definition normalizeString (path : string) (allowAboveRoot : bool) : string :=
  join_segments (rev (fold_left (normalize_step allowAboveRoot) (split path) [])).

Definition isAbsolute (path : string) : bool :=
  match path with
  | String c _ => is_slash c
  | EmptyString => false
  end.

Definition has_trailing_separator (path : string) : bool :=
  match rev (chars path) with
  | c :: _ => is_slash c
  | [] => false
  end.

Definition normalize (path : string) : string :=
  if bool_decide (path = "") then "."
  else
    let p := normalizeString path (negb (isAbsolute path)) in
    if bool_decide (p = "") then
      if isAbsolute path then "/"
      else if has_trailing_separator path then "./" else "."
    else
      let p' := if has_trailing_separator path then p +:+ "/" else p in
      if isAbsolute path then "/" +:+ p' else p'.

(** [path.join(...paths)] *)
Definition join (paths : list string) : string :=
  match filter (fun p => p ≠ "") paths with
  | [] => "."
  | nonempty => normalize (join_segments nonempty)
  end.

(** The loop of [path.resolve], from the last argument leftwards and then
    the working directory, until an absolute path has been met. *)
Fixpoint resolve_loop (rpaths : list string) (cwd : string)
    (resolvedPath : string) : string * bool :=
  match rpaths with
  | [] =>
      if bool_decide (cwd = "") then (resolvedPath, false)
      else (cwd +:+ "/" +:+ resolvedPath, isAbsolute cwd)
  | p :: rest =>
      if bool_decide (p = "") then resolve_loop rest cwd resolvedPath
      else if isAbsolute p then (p +:+ "/" +:+ resolvedPath, true)
      else resolve_loop rest cwd (p +:+ "/" +:+ resolvedPath)
  end.

(** [path.resolve(...paths)] with [process.cwd()] passed explicitly. *)
Definition resolve (cwd : string) (paths : list string) : string :=
  let '(resolvedPath, resolvedAbsolute) := resolve_loop (rev paths) cwd "" in
  let p := normalizeString resolvedPath (negb resolvedAbsolute) in
  if resolvedAbsolute then "/" +:+ p
  else if bool_decide (p = "") then "." else p.

(** [path.dirname]: the backwards scan over the indices [len-1 .. 1]; the
    head of [r] is the character at index [length r]. *)
Fixpoint dirname_scan (r : list ascii) (matchedSlash : bool) : option nat :=
  match r with
  | [] => None
  | c :: r' =>
      if is_slash c then
        if matchedSlash then dirname_scan r' true else Some (length r)
      else dirname_scan r' false
  end.

Definition dirname (path : string) : string :=
  match path with
  | EmptyString => "."
  | String c0 rest =>
      match dirname_scan (rev (chars rest)) true with
      | None => if is_slash c0 then "/" else "."
      | Some end_ =>
          if is_slash c0 && bool_decide (end_ = 1%nat) then "//"
          else JsString.take end_ path
      end
  end.

(** [path.basename(path, suffix)]: the state of its backwards scan.  The
    part of the suffix still to be matched is kept as the list of its
    characters, last one first; the empty list stands for [extIdx = -1]. *)
Record basename_state := mkBasename {
  b_start : Z;
  b_end : Z;
  b_matchedSlash : bool;
  b_ext : list ascii;
  b_firstNonSlashEnd : Z
}.

(** The head of [r] is the character at index [length r - 1]. *)
Fixpoint basename_scan (r : list ascii) (st : basename_state) : basename_state :=
  match r with
  | [] => st
  | c :: r' =>
      let i := Z.of_nat (length r') in
      if is_slash c then
        if negb (b_matchedSlash st)
        then mkBasename (i + 1) (b_end st) (b_matchedSlash st) (b_ext st)
               (b_firstNonSlashEnd st)
        else basename_scan r' st
      else
        let st1 :=
          if b_firstNonSlashEnd st =? -1
          then mkBasename (b_start st) (b_end st) false (b_ext st) (i + 1)
          else st in
        let st2 :=
          match b_ext st1 with
          | [] => st1
          | e :: ext' =>
              if bool_decide (c = e) then
                match ext' with
                | [] => mkBasename (b_start st1) i (b_matchedSlash st1) []
                          (b_firstNonSlashEnd st1)
                | _ => mkBasename (b_start st1) (b_end st1) (b_matchedSlash st1)
                         ext' (b_firstNonSlashEnd st1)
                end
              else mkBasename (b_start st1) (b_firstNonSlashEnd st1)
                     (b_matchedSlash st1) [] (b_firstNonSlashEnd st1)
          end in
        basename_scan r' st2
  end.

(** The scan used when no usable suffix is given. *)
Fixpoint basename_plain_scan (r : list ascii) (start end_ : Z) (matchedSlash : bool)
  : Z * Z :=
  match r with
  | [] => (start, end_)
  | c :: r' =>
      let i := Z.of_nat (length r') in
      if is_slash c then
        if negb matchedSlash then (i + 1, end_)
        else basename_plain_scan r' start end_ matchedSlash
      else if end_ =? -1 then basename_plain_scan r' start (i + 1) false
      else basename_plain_scan r' start end_ matchedSlash
  end.

Definition basename (path suffix : string) : string :=
  let len := Z.of_nat (String.length path) in
  if negb (bool_decide (suffix = "")) && (Z.of_nat (String.length suffix) <=? len) then
    if bool_decide (suffix = path) then ""
    else
      let st := basename_scan (rev (chars path))
                  (mkBasename 0 (-1) true (rev (chars suffix)) (-1)) in
      let end_ :=
        if b_start st =? b_end st then b_firstNonSlashEnd st
        else if b_end st =? -1 then len
        else b_end st in
      JsString.slice path (b_start st) end_
  else
    let '(start, end_) := basename_plain_scan (rev (chars path)) 0 (-1) true in
    if end_ =? -1 then "" else JsString.slice path start end_.

End Path.

(** ** [Date.prototype.toISOString] *)

(** A [Date] is seen through its UTC calendar fields, the ones
    [toISOString] prints. *)
Record Date := mkDate {
  utc_year : Z;
  utc_month : Z;
  utc_day : Z;
  utc_hours : Z;
  utc_minutes : Z;
  utc_seconds : Z;
  utc_milliseconds : Z
}.

Definition digit (n : Z) : ascii := ascii_of_nat (48 + Z.to_nat (n mod 10)).

Definition pad2 (n : Z) (k : string) : string :=
  String (digit (n / 10)) (String (digit n) k).
Definition pad3 (n : Z) (k : string) : string :=
  String (digit (n / 100)) (pad2 n k).
Definition pad4 (n : Z) (k : string) : string :=
  String (digit (n / 1000)) (pad3 n k).
Definition pad6 (n : Z) (k : string) : string :=
  String (digit (n / 100000)) (String (digit (n / 10000)) (pad4 n k)).

(** Four-digit years print as they are; the others use the expanded form
    with a sign and six digits. *)
Definition iso_year (y : Z) (k : string) : string :=
  if (0 <=? y) && (y <=? 9999) then pad4 y k
  else String (if y <? 0 then "-"%char else "+"%char) (pad6 (Z.abs y) k).

Definition toISOString (d : Date) : string :=
  iso_year (utc_year d)
    (String "-" (pad2 (utc_month d)
    (String "-" (pad2 (utc_day d)
    (String "T" (pad2 (utc_hours d)
    (String ":" (pad2 (utc_minutes d)
    (String ":" (pad2 (utc_seconds d)
    (String "." (pad3 (utc_milliseconds d) "Z")))))))))))).

(** The replace call of [generateOutputPath]: every colon and every period
    becomes a hyphen. *)
Fixpoint replace_colon_period (s : string) : string :=
  match s with
  | EmptyString => EmptyString
  | String c s' =>
      String (if bool_decide (c = ":"%char) || bool_decide (c = "."%char)
              then "-"%char else c)
             (replace_colon_period s')
  end.

(** ** [generateOutputPath] *)

Definition timestamp (now : Date) : string :=
  JsString.slice (replace_colon_period (toISOString now)) 0 19.

Definition generateOutputPath (now : Date) (inputPath : string) : string :=
  let dir := Path.dirname inputPath in
  let baseName := Path.basename inputPath ".tsx" in
  Path.join [dir; baseName +:+ "_" +:+ timestamp now +:+ ".mp4"].

(** ** The webpack override handed to the bundler *)

Record resolve_options := mkResolve {
  modules : option (list string);
  resolve_other : list (string * string)
}.

Record webpack_config := mkWebpack {
  resolve : option resolve_options;
  resolveLoader : option resolve_options;
  config_other : list (string * string)
}.

(** [[dir, ...(r.modules || ['node_modules'])]] on [r = slot || {}]. *)
Definition prepend_modules (dir : string) (slot : option resolve_options)
  : resolve_options :=
  let r := default (mkResolve None []) slot in
  mkResolve (Some (dir :: default ["node_modules"] (modules r))) (resolve_other r).

Definition webpackOverride (rendererNodeModules : string) (webpackConfig : webpack_config)
  : webpack_config :=
  mkWebpack (Some (prepend_modules rendererNodeModules (resolve webpackConfig)))
            (Some (prepend_modules rendererNodeModules (resolveLoader webpackConfig)))
            (config_other webpackConfig).

(** ** Data exchanged with the collaborators *)

Record config := mkConfig {
  id : string;
  durationInSeconds : number;
  fps : number;
  width : number;
  height : number
}.

Record composition := mkComposition {
  comp_id : string;
  comp_durationInFrames : number;
  comp_fps : number;
  comp_width : number;
  comp_height : number;
  comp_other : list (string * string)
}.

Record render_options := mkRender {
  r_composition : composition;
  r_serveUrl : string;
  r_codec : string;
  r_outputLocation : string
}.

(** A template literal keeps the numbers it interpolates as numbers. *)
Inductive chunk :=
| Txt (s : string)
| Num (x : number).

Inductive event :=
| EBanner (title : string)
| ELog (label : string) (value : list chunk)
| EError (msg : string)
| ESuccess (msg : string)
| EProgress (msg : list chunk)
| EClearProgress
| EConsoleLog (line : list chunk)
| EValidateTsxFile (path : string)
| EExtractCompositionConfig (path : string)
| EEnsureBrowser
| ECreateTempProject (path : string) (cfg : config)
| EBundle (entryPoint : string) (webpackConfig : webpack_config)
| ESelectComposition (serveUrl : string) (compId : string)
| ERenderMedia (opts : render_options)
| ECleanupTempProject (dir : string).

(** ** The run monad: a trace, the local [tempProjectDir], and an outcome *)

Inductive outcome (A : Type) :=
| Returned (a : A)
| Thrown (e : exn)
| Exited (code : Z).
Arguments Returned {A} a.
Arguments Thrown {A} e.
Arguments Exited {A} code.

Record result (A : Type) := mkResult {
  trace : list event;
  tempProjectDir : option string;
  out : outcome A
}.
Arguments mkResult {A} _ _ _.
Arguments trace {A} _.
Arguments tempProjectDir {A} _.
Arguments out {A} _.

Definition M (A : Type) : Type := option string -> result A.

Definition ret {A} (a : A) : M A := fun dir => mkResult [] dir (Returned a).

Definition bind {A B} (m : M A) (k : A -> M B) : M B := fun dir =>
  match m dir with
  | mkResult t d (Returned a) =>
      match k a d with
      | mkResult t' d' o => mkResult (t ++ t') d' o
      end
  | mkResult t d (Thrown e) => mkResult t d (Thrown e)
  | mkResult t d (Exited c) => mkResult t d (Exited c)
  end.

Notation "x <- m ;; k" := (bind m (fun x => k))
  (at level 100, m at next level, right associativity).
Notation "m ;;; k" := (bind m (fun _ => k))
  (at level 100, right associativity).

Definition emit (e : event) : M unit := fun dir => mkResult [e] dir (Returned tt).
Definition throw {A} (e : exn) : M A := fun dir => mkResult [] dir (Thrown e).

(** [process.exit(code)] ends the process on the spot: nothing that follows
    it in the script runs, pending [finally] blocks included. *)
Definition process_exit {A} (code : Z) : M A := fun dir => mkResult [] dir (Exited code).

Definition set_tempProjectDir (d : string) : M unit :=
  fun _ => mkResult [] (Some d) (Returned tt).
Definition get_tempProjectDir : M (option string) :=
  fun dir => mkResult [] dir (Returned dir).

(** The answer of a collaborator: a value, or what it threw. *)
Definition of_sum {A} (r : exn + A) : M A :=
  match r with
  | inl e => throw e
  | inr a => ret a
  end.

Definition of_option_error (r : option exn) : M unit :=
  match r with
  | Some e => throw e
  | None => ret tt
  end.

(** The result of a function of the script, which throws [Error]s only. *)
Definition of_error_sum {A} (r : error + A) : M A :=
  match r with
  | inl e => throw e
  | inr a => ret a
  end.

(** [err.message], as the text it is printed with. *)
Definition read_message (err : exn) : M string :=
  match err with
  | Raised e => ret (err_message e)
  | RaisedOther message_text => ret message_text
  | RaisedNullish =>
      throw (TypeError "Cannot read properties of undefined (reading 'message')")
  end.

Fixpoint for_each {A} (l : list A) (f : A -> M unit) : M unit :=
  match l with
  | [] => ret tt
  | x :: l' => f x ;;; for_each l' f
  end.

(** [try { body } catch (err) { handler }] *)
Definition try_catch {A} (body : M A) (handler : exn -> M A) : M A := fun dir =>
  match body dir with
  | mkResult t d (Thrown e) =>
      match handler e d with
      | mkResult t' d' o => mkResult (t ++ t') d' o
      end
  | r => r
  end.

(** [try { body } finally { cleanup }]: the block runs when [body] returns
    or throws, and its own completion wins when it is abrupt; a process that
    has exited runs nothing. *)
Definition try_finally {A} (body : M A) (cleanup : M unit) : M A := fun dir =>
  match body dir with
  | mkResult t d (Exited c) => mkResult t d (Exited c)
  | mkResult t d o =>
      match cleanup d with
      | mkResult t' d' (Returned _) => mkResult (t ++ t') d' o
      | mkResult t' d' (Thrown e) => mkResult (t ++ t') d' (Thrown e)
      | mkResult t' d' (Exited c) => mkResult (t ++ t') d' (Exited c)
      end
  end.

Definition console_log (line : string) : M unit := emit (EConsoleLog [Txt line]).

(** ** The environment of one run

    What the script is given and what its collaborators answer.  The
    helpers of [./lib] ([validateTsxFile], [extractCompositionConfig],
    [createTempProject]) and the Remotion functions ([ensureBrowser],
    [bundle], [selectComposition], [renderMedia]) are parameters of the run:
    each either returns or throws, an [Error] or any other value, and the
    streaming ones also deliver a list of progress values.  [webpack_base] is the configuration the bundler
    presents to the override.  [cleanupTempProject] and the console helpers
    only leave an event in the trace. *)

Record world := mkWorld {
  argv : list string;
  cwd : string;
  script_dirname : string;
  now : Date;
  validateTsxFile : string -> option exn;
  extractCompositionConfig : string -> exn + config;
  browser_download : list number;
  ensureBrowser : option exn;
  createTempProject : string -> config -> exn + string;
  webpack_base : webpack_config;
  bundle : string -> webpack_config -> list number * (exn + string);
  selectComposition : string -> string -> exn + composition;
  renderMedia : render_options -> list number * option exn
}.

(** [path.resolve] applied to a value read from [args]: a non-string
    argument is rejected with a [TypeError]. *)
Definition path_resolve_value (w : world) (v : option jsval) : M string :=
  match v with
  | Some (JStr p) => ret (Path.resolve (cwd w) [p])
  | _ => throw (TypeError "The paths[0] argument must be of type string")
  end.

(** [Math.round(p * 100)] *)
Definition round_percent (p : number) : number :=
  Math_round (num_mul p (number_of_Z 100)).

Definition percent_text (label : string) (p : number) : list chunk :=
  [Txt label; Num (round_percent p); Txt "%"].

(** The hints of the [catch] block. *)
Fixpoint match_cant_resolve_name (s : string) : option (string * string) :=
  match s with
  | EmptyString => None
  | String c s' =>
      if bool_decide (c = "'"%char) then Some (EmptyString, s')
      else match match_cant_resolve_name s' with
           | Some (name, rest) => Some (String c name, rest)
           | None => None
           end
  end.

(** [message.match(/Can't resolve '([^']+)'/)]: the first capture group of
    the leftmost match. *)
Fixpoint match_cant_resolve (message : string) : option string :=
  let here :=
    if JsString.startsWith message "Can't resolve '" then
      match match_cant_resolve_name (JsString.drop 15 message) with
      | Some (String c name, _) => Some (String c name)
      | _ => None
      end
    else None in
  match here with
  | Some name => Some name
  | None =>
      match message with
      | EmptyString => None
      | String _ rest => match_cant_resolve rest
      end
  end.

Definition module_hint (name : string) : string :=
  "  Hint: Module '" +:+ name +:+ "' is not installed in the renderer".
Definition dependency_hint : string :=
  "  Hint: Your TSX file uses a dependency not included in the renderer".

Definition print_hints (message : string) : M unit :=
  if JsString.includes message "compositionConfig" then
    console_log "  Hint: Check that your compositionConfig is properly formatted"
  else if JsString.includes message "Module not found" then
    match match_cant_resolve message with
    | Some name => console_log (module_hint name)
    | None => console_log dependency_hint
    end ;;;
    console_log "" ;;;
    console_log "  Supported libraries:" ;;;
    console_log "    - react, remotion (core)" ;;;
    console_log "    - three, @react-three/fiber, @react-three/drei" ;;;
    console_log "    - @remotion/* packages (media-utils, noise, shapes, etc.)" ;;;
    console_log "    - framer-motion, d3, lodash, zod"
  else if JsString.includes message "ENOENT" then
    console_log "  Hint: A required file or directory was not found"
  else ret tt.

(** ** [main] *)

(** [Math.round(config.durationInSeconds * config.fps)] *)
Definition durationInFrames_of (cfg : config) : number :=
  Math_round (num_mul (durationInSeconds cfg) (fps cfg)).

Definition usage_line : string :=
  "  Usage: render-cli.js --input=file.tsx [--output=output.mp4]".

(** The body of the [try] block. *)
Definition render_pipeline (w : world) (absoluteInputPath outputPath : string)
    (cfg : config) : M unit :=
  console_log "" ;;;
  emit (ELog "Checking browser..." []) ;;;
  emit EEnsureBrowser ;;;
  for_each (browser_download w)
    (fun percent => emit (EProgress (percent_text "Downloading browser: " percent))) ;;;
  of_option_error (ensureBrowser w) ;;;
  emit EClearProgress ;;;
  emit (ESuccess "Browser ready") ;;;
  emit (ELog "Creating temporary project..." []) ;;;
  emit (ECreateTempProject absoluteInputPath cfg) ;;;
  dir <- of_sum (createTempProject w absoluteInputPath cfg) ;;
  set_tempProjectDir dir ;;;
  emit (ESuccess "Temporary project created") ;;;
  emit (ELog "Bundling project..." []) ;;;
  let entryPoint := Path.join [dir; "src"; "index.ts"] in
  let rendererNodeModules := Path.resolve (cwd w) [script_dirname w; "node_modules"] in
  let webpackConfig := webpackOverride rendererNodeModules (webpack_base w) in
  emit (EBundle entryPoint webpackConfig) ;;;
  for_each (fst (bundle w entryPoint webpackConfig))
    (fun percent => emit (EProgress (percent_text "Bundling: " percent))) ;;;
  bundleLocation <- of_sum (snd (bundle w entryPoint webpackConfig)) ;;
  emit EClearProgress ;;;
  emit (ESuccess "Bundle complete") ;;;
  emit (ELog "Selecting composition..." []) ;;;
  emit (ESelectComposition bundleLocation (id cfg)) ;;;
  comp <- of_sum (selectComposition w bundleLocation (id cfg)) ;;
  emit (ESuccess ("Selected: " +:+ comp_id comp)) ;;;
  let durationInFrames := durationInFrames_of cfg in
  console_log "" ;;;
  emit (ELog "Rendering video..." []) ;;;
  emit (EConsoleLog [Txt "    "; Num durationInFrames; Txt " frames at ";
                     Num (fps cfg); Txt "fps"]) ;;;
  let opts :=
    mkRender
      (mkComposition (comp_id comp) durationInFrames (fps cfg) (width cfg)
         (height cfg) (comp_other comp))
      bundleLocation "h264" outputPath in
  emit (ERenderMedia opts) ;;;
  for_each (fst (renderMedia w opts))
    (fun p => emit (EProgress (percent_text "Rendering: " p))) ;;;
  of_option_error (snd (renderMedia w opts)) ;;;
  emit EClearProgress ;;;
  console_log "" ;;;
  emit (ESuccess "Render complete!") ;;;
  console_log "" ;;;
  console_log ("  Output: " +:+ outputPath) ;;;
  console_log "" ;;;
  process_exit 0.

(** The [catch] block.  The message is interpolated into the error line
    and then searched with [includes], a method that a message has when it
    is a string; on any other value caught the call throws a [TypeError],
    out of the [catch] block. *)
Definition render_failed (args : gmap string jsval) (err : exn) : M unit :=
  emit EClearProgress ;;;
  message <- read_message err ;;
  emit (EError ("Render failed: " +:+ message)) ;;;
  match err with
  | Raised e =>
      print_hints (err_message e) ;;;
      (if truthy (args !! "verbose") then
         console_log "" ;;;
         console_log "  Stack trace:" ;;;
         console_log (err_stack e)
       else ret tt) ;;;
      process_exit 1
  | _ => throw (TypeError "err.message.includes is not a function")
  end.

(** The [finally] block. *)
Definition release_staging : M unit :=
  dir <- get_tempProjectDir ;;
  match dir with
  | Some d => emit (ECleanupTempProject d)
  | None => ret tt
  end.

Definition extraction_failed (err : exn) : M config :=
  message <- read_message err ;;
  emit (EError ("Failed to extract composition config: " +:+ message)) ;;;
  console_log "" ;;;
  console_log "  Hint: Ensure your TSX file exports a compositionConfig object:" ;;;
  console_log "" ;;;
  console_log "    export const compositionConfig = {" ;;;
  console_log "      id: 'MyVideo'," ;;;
  console_log "      durationInSeconds: 5," ;;;
  console_log "      fps: 30," ;;;
  console_log "      width: 1080," ;;;
  console_log "      height: 1920," ;;;
  console_log "    };" ;;;
  console_log "" ;;;
  process_exit 1.

(** Lines 52 to 83 of the script: the arguments, the input path, its
    validation and the output path. *)
Definition choose_outputPath (w : world) (args : gmap string jsval)
    (absoluteInputPath : string) : M string :=
  if truthy (args !! "output") then path_resolve_value w (args !! "output")
  else ret (generateOutputPath (now w) absoluteInputPath).

Definition resolve_paths (w : world) : M (gmap string jsval * string * string) :=
  emit (EBanner "Remotion Video Renderer") ;;;
  args <- of_error_sum (parseArgs (argv w)) ;;
  let inputPath := inputPath_of args in
  (if negb (truthy inputPath) then
     emit (EError "No input file specified") ;;;
     console_log "" ;;;
     console_log usage_line ;;;
     console_log "" ;;;
     process_exit 1
   else ret tt) ;;;
  absoluteInputPath <- path_resolve_value w inputPath ;;
  try_catch
    (emit (EValidateTsxFile absoluteInputPath) ;;;
     of_option_error (validateTsxFile w absoluteInputPath))
    (fun err => message <- read_message err ;; emit (EError message) ;;; process_exit 1) ;;;
  outputPath <- choose_outputPath w args absoluteInputPath ;;
  emit (ELog "Input" [Txt absoluteInputPath]) ;;;
  emit (ELog "Output" [Txt outputPath]) ;;;
  console_log "" ;;;
  ret (args, absoluteInputPath, outputPath).

(** Lines 85 to 107: the extraction of the composition config. *)
Definition extract_config (w : world) (absoluteInputPath : string) : M config :=
  emit (ELog "Extracting composition config..." []) ;;;
  try_catch
    (emit (EExtractCompositionConfig absoluteInputPath) ;;;
     cfg <- of_sum (extractCompositionConfig w absoluteInputPath) ;;
     emit (ELog "Composition ID" [Txt (id cfg)]) ;;;
     emit (ELog "Duration" [Num (durationInSeconds cfg); Txt "s at ";
                            Num (fps cfg); Txt "fps"]) ;;;
     emit (ELog "Resolution" [Num (width cfg); Txt "x"; Num (height cfg)]) ;;;
     ret cfg)
    extraction_failed.

Definition main (w : world) : M unit :=
  paths <- resolve_paths w ;;
  let '(args, absoluteInputPath, outputPath) := paths in
  cfg <- extract_config w absoluteInputPath ;;
  try_finally
    (try_catch (render_pipeline w absoluteInputPath outputPath cfg)
               (render_failed args))
    release_staging.

(** The run of the script: [tempProjectDir] starts as [null]. *)
Definition run (w : world) : result unit := main w None.

(** The status the process ends with.  A rejection of [main()] that nothing
    handles ends the process with status 1; a promise that merely resolves
    leaves the status at 0. *)
Definition exit_status {A} (r : result A) : Z :=
  match out r with
  | Exited code => code
  | Thrown _ => 1
  | Returned _ => 0
  end.

(** ** The config extractor *)

(** The literal values a configuration record can bind a field to. *)
Inductive literal :=
| LString (s : string)
| LNumber (x : number)
| LOther.

Definition required_fields : list string :=
  ["id"; "durationInSeconds"; "fps"; "width"; "height"].

(** Modelled from the spec: the error of [lib/config-extractor.js], which
    is not among the sources; the spec asks for a [ConfigExtractionError]
    naming the missing or invalid field. *)
Definition ConfigExtractionError (field : string) : error :=
  mkError "ConfigExtractionError"
    ("compositionConfig field " +:+ field +:+ " is missing or invalid")
    ("ConfigExtractionError: " +:+ field).

Definition string_field (src : gmap string literal) (field : string) : error + string :=
  match src !! field with
  | Some (LString s) => inr s
  | _ => inl (ConfigExtractionError field)
  end.

Definition number_field (src : gmap string literal) (field : string) : error + number :=
  match src !! field with
  | Some (LNumber x) => inr x
  | _ => inl (ConfigExtractionError field)
  end.

(** A field is usable when it is present with a literal of its type. *)
Definition field_ok (src : gmap string literal) (field : string) : bool :=
  match src !! field with
  | Some (LString _) => bool_decide (field = "id")
  | Some (LNumber _) => negb (bool_decide (field = "id"))
  | _ => false
  end.

(** Modelled from the spec: [lib/config-extractor.js], which defines
    [extractCompositionConfig], is not among the sources.  The spec gives
    its contract: the five fields [id] (a string), [durationInSeconds],
    [fps], [width] and [height] (numbers) are required, nothing is
    defaulted, and a missing or wrong-typed field fails with a
    [ConfigExtractionError] naming that field.  The source file is seen
    through the fields of its exported configuration record. *)
Definition extractCompositionConfig_spec (src : gmap string literal) : exn + config :=
  match string_field src "id" with
  | inl e => inl e
  | inr i =>
  match number_field src "durationInSeconds" with
  | inl e => inl e
  | inr d =>
  match number_field src "fps" with
  | inl e => inl e
  | inr f =>
  match number_field src "width" with
  | inl e => inl e
  | inr wd =>
  match number_field src "height" with
  | inl e => inl e
  | inr ht => inr (mkConfig i d f wd ht)
  end end end end end.

(** ** Vocabulary of the specification *)

(** A positive integer, as a number. *)
Definition is_positive (x : number) : bool := num_ltb (S754_zero false) x.

Definition is_integral (x : number) : bool :=
  match x with
  | S754_zero _ => true
  | S754_finite _ m e => (0 <=? e) || (Z.pos m mod 2 ^ (- e) =? 0)
  | _ => false
  end.

(** The descriptors the data model of the specification calls valid: a
    non-empty id, a positive duration, and positive integers for the frame
    rate and the two dimensions. *)
Definition valid_descriptor (cfg : config) : bool :=
  negb (bool_decide (id cfg = ""))
  && is_positive (durationInSeconds cfg)
  && is_positive (fps cfg) && is_integral (fps cfg)
  && is_positive (width cfg) && is_integral (width cfg)
  && is_positive (height cfg) && is_integral (height cfg).

(** The percentages shown by the progress lines carrying a given label. *)
Fixpoint reported_progress (label : string) (t : list event) : list number :=
  match t with
  | [] => []
  | EProgress [Txt l; Num x; Txt _] :: t' =>
      if bool_decide (l = label) then x :: reported_progress label t'
      else reported_progress label t'
  | _ :: t' => reported_progress label t'
  end.

Fixpoint nondecreasing (l : list number) : bool :=
  match l with
  | x :: ((y :: _) as l') => negb (num_ltb y x) && nondecreasing l'
  | _ => true
  end.

Definition within_percent (x : number) : bool :=
  negb (num_ltb x (number_of_Z 0)) && negb (num_ltb (number_of_Z 100) x).

(** The property name an argument of the form [--name] or [--name=value]
    assigns to. *)
Definition arg_key (arg : string) : option string :=
  if JsString.startsWith arg "--" then
    let eqIndex := JsString.indexOf arg "="%char in
    Some (if 0 <? eqIndex then JsString.slice arg 2 eqIndex
          else JsString.slice_from arg 2)
  else None.

Fixpoint occurs (c : ascii) (s : string) : bool :=
  match s with
  | EmptyString => false
  | String a s' => bool_decide (a = c) || occurs c s'
  end.

(** The value such an argument assigns. *)
Definition arg_value (arg : string) : jsval :=
  let eqIndex := JsString.indexOf arg "="%char in
  if 0 <? eqIndex
  then JStr (JsString.strip_quotes (JsString.slice_from arg (eqIndex + 1)))
  else JTrue.

(** [stored] is [value] without the quote character that starts it and
    without the one that ends it, where there is one: [pre] and [post] are
    what was cut at either end. *)
Definition quotes_removed (value stored : string) : Prop :=
  exists pre post,
    value = pre +:+ stored +:+ post
    /\ (pre = "" \/ exists q, JsString.is_quote q = true /\ pre = String q "")
    /\ (post = "" \/ exists q, JsString.is_quote q = true /\ post = String q "")
    /\ (forall q rest, value = String q rest -> JsString.is_quote q = true ->
          pre = String q "")
    /\ (forall body q, value = body +:+ String q "" -> body ≠ "" ->
          JsString.is_quote q = true -> post = String q "").

(** The arguments that are not flags, in command-line order. *)
Definition positionals (argv : list string) : list string :=
  filter (fun a => arg_key a = None) argv.

(** What a command line leaves in the property [k], starting from [cur]:
    the value of the last argument assigning to it. *)
Definition assigned (k : string) (cur : option jsval) (argv : list string)
  : option jsval :=
  fold_left (fun cur a => if decide (arg_key a = Some k) then Some (arg_value a) else cur)
            argv cur.

(** The [_positional] property holding a list of arguments. *)
Definition positional_value (l : list string) : option jsval :=
  match l with
  | [] => None
  | _ => Some (JArr l)
  end.

(** A path component that normalisation leaves alone. *)
Definition plain_segment (s : string) : bool :=
  negb (bool_decide (s = "")) && negb (bool_decide (s = "."))
  && negb (bool_decide (s = "..")) && negb (occurs "/"%char s).

(** The absolute path made of the given components; the root is the empty
    list. *)
Fixpoint absolute_path (segs : list string) : string :=
  match segs with
  | [] => ""
  | seg :: rest => "/" +:+ seg +:+ absolute_path rest
  end.

(** The UTC time to the second, in the ISO layout with hyphens for the
    colons: [YYYY-MM-DDTHH-mm-ss]. *)
Definition second_stamp (d : Date) : string :=
  pad4 (utc_year d)
    (String "-" (pad2 (utc_month d)
    (String "-" (pad2 (utc_day d)
    (String "T" (pad2 (utc_hours d)
    (String "-" (pad2 (utc_minutes d)
    (String "-" (pad2 (utc_seconds d) "")))))))))).

(** The collaborator calls recorded in a trace. *)
Definition cleanup_calls (t : list event) : list string :=
  omap (fun e => match e with ECleanupTempProject d => Some d | _ => None end) t.
Definition staging_calls (t : list event) : list (string * config) :=
  omap (fun e => match e with ECreateTempProject p c => Some (p, c) | _ => None end) t.
Definition bundle_calls (t : list event) : list (string * webpack_config) :=
  omap (fun e => match e with EBundle p c => Some (p, c) | _ => None end) t.
Definition render_calls (t : list event) : list render_options :=
  omap (fun e => match e with ERenderMedia o => Some o | _ => None end) t.
Definition progress_lines (t : list event) : list (list chunk) :=
  omap (fun e => match e with EProgress l => Some l | _ => None end) t.
(** The lines written with [console.log] that are plain text; the one line
    that interpolates numbers, the frame count of line 180, is not among
    them and is found in [console_output] below. *)
Definition console_lines (t : list event) : list string :=
  omap (fun e => match e with EConsoleLog [Txt l] => Some l | _ => None end) t.

(** Every line written with [console.log], in order, with the numbers it
    interpolates. *)
Definition console_output (t : list event) : list (list chunk) :=
  omap (fun e => match e with EConsoleLog l => Some l | _ => None end) t.

Definition is_blank (line : list chunk) : bool :=
  match line with
  | [Txt EmptyString] => true
  | _ => false
  end.

(** The console output without its blank lines. *)
Definition printed_lines (t : list event) : list (list chunk) :=
  filter (fun line => is_blank line = false) (console_output t).

Definition text_line (l : string) : list chunk := [Txt l].

(** The line that announces the frames of a render call. *)
Definition frames_line (opts : render_options) : list chunk :=
  [Txt "    "; Num (comp_durationInFrames (r_composition opts)); Txt " frames at ";
   Num (comp_fps (r_composition opts)); Txt "fps"].

(** A trace that records no collaborator call and no progress line. *)
Definition silent (t : list event) : Prop :=
  cleanup_calls t = [] /\ staging_calls t = [] /\ bundle_calls t = []
  /\ render_calls t = [] /\ progress_lines t = [].

(** A result with a trace put in front of its own. *)
Definition after (t : list event) {A} (r : result A) : result A :=
  mkResult (t ++ trace r) (tempProjectDir r) (out r).

(** A property stated of a result; it is kept folded while the run that
    gives the result is unfolded. *)
Definition holds_for {A} (P : A -> Prop) (x : A) : Prop := P x.

(** A loop whose body only prints is one batch of prints. *)
Definition emit_all (es : list event) : M unit :=
  fun dir => mkResult es dir (Returned tt).

(** Every phase of the pipeline completes: the arguments parse, an input
    path is given and passes validation, the output path resolves, and each
    collaborator returns. *)
Definition pipeline_succeeds (w : world) : bool :=
  match parseArgs (argv w) with
  | inl _ => false
  | inr args =>
  match inputPath_of args with
  | Some (JStr p) =>
      negb (bool_decide (p = "")) &&
      let absoluteInputPath := Path.resolve (cwd w) [p] in
      match validateTsxFile w absoluteInputPath with
      | Some _ => false
      | None =>
      match (match args !! "output" with
             | Some JTrue => None
             | Some (JStr o) =>
                 Some (if bool_decide (o = "")
                       then generateOutputPath (now w) absoluteInputPath
                       else Path.resolve (cwd w) [o])
             | Some (JArr _) => None
             | None => Some (generateOutputPath (now w) absoluteInputPath)
             end) with
      | None => false
      | Some outputPath =>
      match extractCompositionConfig w absoluteInputPath with
      | inl _ => false
      | inr cfg =>
      match ensureBrowser w with
      | Some _ => false
      | None =>
      match createTempProject w absoluteInputPath cfg with
      | inl _ => false
      | inr dir =>
      let entryPoint := Path.join [dir; "src"; "index.ts"] in
      let webpackConfig :=
        webpackOverride (Path.resolve (cwd w) [script_dirname w; "node_modules"])
          (webpack_base w) in
      match snd (bundle w entryPoint webpackConfig) with
      | inl _ => false
      | inr bundleLocation =>
      match selectComposition w bundleLocation (id cfg) with
      | inl _ => false
      | inr comp =>
          let opts :=
            mkRender
              (mkComposition (comp_id comp) (durationInFrames_of cfg) (fps cfg)
                 (width cfg) (height cfg) (comp_other comp))
              bundleLocation "h264" outputPath in
          bool_decide (snd (renderMedia w opts) = None)
      end end end end end end end
  | _ => false
  end end.

(** ** Sample runs *)

Definition sample_config : config :=
  mkConfig "X" (number_of_Z 5) (number_of_Z 30) (number_of_Z 1080) (number_of_Z 1920).

Definition sample_date : Date := mkDate 2024 3 9 14 5 7 123.

(** A run in which every collaborator succeeds; the bundler and the
    renderer each deliver the progress values they are given. *)
Definition sample_world (args : list string) (cfg : config)
    (bundling rendering : list number) : world :=
  mkWorld args "/home/user/videos" "/opt/remotion-renderer/renderer" sample_date
    (fun _ => None)
    (fun _ => inr cfg)
    [] None
    (fun _ _ => inr "/tmp/remotion-render-1")
    (mkWebpack (Some (mkResolve (Some ["node_modules"; "/srv/lib"]) [])) None [])
    (fun _ _ => (bundling, inr "/tmp/remotion-bundle-1"))
    (fun _ i => inr (mkComposition i (number_of_Z 1) (number_of_Z 1) (number_of_Z 1)
                       (number_of_Z 1) []))
    (fun _ => (rendering, None)).

Definition one_half : number := number_of_dyadic 1 (-1).
Definition one_quarter : number := number_of_dyadic 1 (-2).
Definition one_and_a_half : number := number_of_dyadic 3 (-1).

(** The same run with a bundler that fails with the given message. *)
Definition failing_bundle_world (args : list string) (message : string) : world :=
  let w := sample_world args sample_config [] [] in
  mkWorld (argv w) (cwd w) (script_dirname w) (now w) (validateTsxFile w)
    (extractCompositionConfig w) (browser_download w) (ensureBrowser w)
    (createTempProject w) (webpack_base w)
    (fun _ _ => ([], inl (Raised (mkError "Error" message ("Error: " +:+ message)))))
    (selectComposition w) (renderMedia w).

(** The same run with a renderer that rejects with the given value. *)
Definition failing_render_world (args : list string) (thrown : exn) : world :=
  let w := sample_world args sample_config [] [] in
  mkWorld (argv w) (cwd w) (script_dirname w) (now w) (validateTsxFile w)
    (extractCompositionConfig w) (browser_download w) (ensureBrowser w)
    (createTempProject w) (webpack_base w) (bundle w) (selectComposition w)
    (fun _ => ([], Some thrown)).

(** A renderer that rejects with a value that is no [Error] and has no
    [message]. *)
Definition rejecting_render_world (args : list string) : world :=
  failing_render_world args (RaisedOther "undefined").

(** A run whose source file is given by the fields of its configuration
    record, read by the extractor modelled above. *)
Definition source_world (args : list string) (src : gmap string literal) : world :=
  let w := sample_world args sample_config [] [] in
  mkWorld (argv w) (cwd w) (script_dirname w) (now w) (validateTsxFile w)
    (fun _ => extractCompositionConfig_spec src) (browser_download w)
    (ensureBrowser w) (createTempProject w) (webpack_base w) (bundle w)
    (selectComposition w) (renderMedia w).

(** ** The order of the collaborator calls *)

Inductive call :=
| CValidate
| CExtract
| CEnsureBrowser
| CCreateTempProject
| CBundle
| CSelectComposition
| CRenderMedia
| CCleanup.

Definition call_of (e : event) : option call :=
  match e with
  | EValidateTsxFile _ => Some CValidate
  | EExtractCompositionConfig _ => Some CExtract
  | EEnsureBrowser => Some CEnsureBrowser
  | ECreateTempProject _ _ => Some CCreateTempProject
  | EBundle _ _ => Some CBundle
  | ESelectComposition _ _ => Some CSelectComposition
  | ERenderMedia _ => Some CRenderMedia
  | ECleanupTempProject _ => Some CCleanup
  | _ => None
  end.

Definition calls (t : list event) : list call := omap call_of t.

(** The calls of a complete run, in the order of the script. *)
Definition pipeline_order : list call :=
  [CValidate; CExtract; CEnsureBrowser; CCreateTempProject; CBundle;
   CSelectComposition; CRenderMedia].

Definition select_calls (t : list event) : list (string * string) :=
  omap (fun e => match e with ESelectComposition u i => Some (u, i) | _ => None end) t.

Definition error_lines (t : list event) : list string :=
  omap (fun e => match e with EError m => Some m | _ => None end) t.
Definition success_lines (t : list event) : list string :=
  omap (fun e => match e with ESuccess m => Some m | _ => None end) t.

Definition log_line (l : string) : event := EConsoleLog [Txt l].

(** The lines [print_hints] writes, and those of the whole [catch] block
    after its error line. *)
Definition supported_libraries : list string :=
  [""; "  Supported libraries:"; "    - react, remotion (core)";
   "    - three, @react-three/fiber, @react-three/drei";
   "    - @remotion/* packages (media-utils, noise, shapes, etc.)";
   "    - framer-motion, d3, lodash, zod"].

Definition config_hint : string :=
  "  Hint: Check that your compositionConfig is properly formatted".
Definition missing_file_hint : string :=
  "  Hint: A required file or directory was not found".

Definition hint_lines (message : string) : list string :=
  if JsString.includes message "compositionConfig" then [config_hint]
  else if JsString.includes message "Module not found" then
    match match_cant_resolve message with
    | Some name => module_hint name
    | None => dependency_hint
    end :: supported_libraries
  else if JsString.includes message "ENOENT" then [missing_file_hint]
  else [].

Definition stack_lines (args : gmap string jsval) (err : error) : list string :=
  if truthy (args !! "verbose") then [""; "  Stack trace:"; err_stack err] else [].

(** A date with other milliseconds. *)
Definition with_milliseconds (d : Date) (ms : Z) : Date :=
  mkDate (utc_year d) (utc_month d) (utc_day d) (utc_hours d) (utc_minutes d)
    (utc_seconds d) ms.

(** ** The launcher [render.sh] *)

Module RenderSh.

Definition newline : ascii := "010"%char.

(** Command substitution drops the newlines that end the output. *)
Fixpoint strip_trailing (c : ascii) (s : string) : string :=
  match s with
  | EmptyString => EmptyString
  | String a s' =>
      match strip_trailing c s' with
      | EmptyString => if bool_decide (a = c) then EmptyString else String a EmptyString
      | r => String a r
      end
  end.

(** What follows the last occurrence of a character, when there is one. *)
Fixpoint after_last (c : ascii) (s : string) : option string :=
  match s with
  | EmptyString => None
  | String a s' =>
      match after_last c s' with
      | Some r => Some r
      | None => if bool_decide (a = c) then Some s' else None
      end
  end.

(** The [basename] utility on one operand: trailing slashes are dropped, a
    string of slashes is the root, and what follows the last slash is
    kept. *)
Definition basename_utility (s : string) : string :=
  if bool_decide (s = "") then ""
  else
    match strip_trailing "/"%char s with
    | EmptyString => "/"
    | t => default t (after_last "/"%char t)
    end.

(** The expansion that removes the longest prefix matching [*.]. *)
Definition remove_through_last_dot (s : string) : string :=
  default s (after_last "."%char s).

(** The builtin [echo] takes an argument made of a hyphen and letters among
    [n], [e] and [E] as options and prints nothing of it. *)
Fixpoint echo_option_letters (s : string) : bool :=
  match s with
  | EmptyString => true
  | String a s' =>
      (bool_decide (a = "n"%char) || bool_decide (a = "e"%char)
       || bool_decide (a = "E"%char)) && echo_option_letters s'
  end.

Definition is_echo_option (s : string) : bool :=
  match s with
  | String a (String b s') => bool_decide (a = "-"%char) && echo_option_letters (String b s')
  | _ => false
  end.

Definition echo (s : string) : string :=
  if is_echo_option s then "" else s +:+ String newline "".

(** [tr '[:upper:]' '[:lower:]'] on ASCII letters. *)
Definition lower_char (c : ascii) : ascii :=
  let n := nat_of_ascii c in
  if (65 <=? n)%nat && (n <=? 90)%nat then ascii_of_nat (n + 32) else c.

Fixpoint lower (s : string) : string :=
  match s with
  | EmptyString => EmptyString
  | String a s' => String (lower_char a) (lower s')
  end.

(** What the script reads of its surroundings: its own directory and the
    file tests [-x] and [-f]. *)
Record shell_env := mkShell {
  script_dir : string;
  executable : string -> bool;
  regular_file : string -> bool
}.

(** The script either prints a line and exits, or ends by running node on
    the renderer with the given arguments. *)
Inductive launch :=
| ExitWith (line : string) (status : Z)
| RunNode (node_exe : string) (script : string) (node_argv : list string).

Definition node_exe_of (env : shell_env) : string :=
  if executable env (script_dir env +:+ "/node/bin/node")
  then script_dir env +:+ "/node/bin/node"
  else if executable env (script_dir env +:+ "/node/node")
       then script_dir env +:+ "/node/node"
       else "node".

Definition file_extension (p1 : string) : string :=
  remove_through_last_dot (strip_trailing newline (basename_utility p1)).

Definition extension_lower (extension : string) : string :=
  strip_trailing newline (lower (echo extension)).

(** [params] are the positional parameters; an unset one expands to the
    empty string. *)
Definition render_sh (env : shell_env) (params : list string) : launch :=
  let p1 := nth 0 params "" in
  let p2 := nth 1 params "" in
  if bool_decide (p1 = "") then
    ExitWith "Usage: ./render.sh input.tsx [output.mp4]" 1
  else if negb (regular_file env p1) then
    ExitWith ("ERROR: File not found: " +:+ p1) 1
  else
    let extension := file_extension p1 in
    if negb (bool_decide (extension_lower extension = "tsx")) then
      ExitWith ("ERROR: File must be a .tsx file, got: ." +:+ extension) 1
    else
      RunNode (node_exe_of env) (script_dir env +:+ "/renderer/render-cli.js")
        (if bool_decide (p2 = "") then ["--input=" +:+ p1]
         else ["--input=" +:+ p1; "--output=" +:+ p2]).

End RenderSh.

(** * Properties *)

(** ** Reasoning about runs *)

Arguments Path.resolve : simpl never.
Arguments Path.join : simpl never.
Arguments generateOutputPath : simpl never.
Arguments webpackOverride : simpl never.
Arguments durationInFrames_of : simpl never.
Arguments percent_text : simpl never.
Arguments parseArgs : simpl never.
Arguments inputPath_of : simpl never.
Arguments print_hints : simpl never.
Arguments bind {A B} _ _ _ /.
Arguments ret {A} _ _ /.
Arguments emit _ _ /.
Arguments emit_all _ _ /.
Arguments throw {A} _ _ /.
Arguments process_exit {A} _ _ /.
Arguments set_tempProjectDir _ _ /.
Arguments get_tempProjectDir _ /.
Arguments of_sum {A} _ _ /.
Arguments of_option_error _ _ /.
Arguments of_error_sum {A} _ _ /.
Arguments read_message _ _ /.
Arguments try_catch {A} _ _ _ /.
Arguments try_finally {A} _ _ _ /.
Arguments console_log _ _ /.
Arguments path_resolve_value _ _ _ /.

Lemma for_each_emit {A} (l : list A) (g : A -> event) :
  for_each l (fun x => emit (g x)) = emit_all (map g l).
Proof.
  induction l as [|x l IH]; [reflexivity|].
  simpl. rewrite IH. reflexivity.
Qed.

Lemma for_each_emit_run {A} (l : list A) (g : A -> event) (dir : option string) :
  for_each l (fun x => emit (g x)) dir = mkResult (map g l) dir (Returned tt).
Proof. rewrite for_each_emit. reflexivity. Qed.

Lemma omap_map_none {A B C} (f : B -> option C) (g : A -> B) (l : list A) :
  (forall x, f (g x) = None) -> omap f (map g l) = [].
Proof.
  intros H. induction l as [|x l IH]; simpl; [reflexivity|].
  rewrite H. exact IH.
Qed.

Lemma print_hints_returns (message : string) (dir : option string) :
  exists t, print_hints message dir = mkResult t dir (Returned tt) /\ silent t.
Proof.
  unfold print_hints, silent.
  destruct (JsString.includes message "compositionConfig"); [simpl; eauto 10|].
  destruct (JsString.includes message "Module not found").
  - destruct (match_cant_resolve message); simpl; eauto 10.
  - destruct (JsString.includes message "ENOENT"); simpl; eauto 10.
Qed.

(** On an [Error] the [catch] block calls no collaborator and exits with
    1. *)
Lemma render_failed_exits (args : gmap string jsval) (err : error) (dir : option string) :
  exists t, render_failed args err dir = mkResult t dir (Exited 1) /\ silent t.
Proof.
  unfold render_failed. simpl.
  destruct (print_hints_returns (err_message err) dir) as (t & -> & Ht).
  unfold silent, cleanup_calls, staging_calls, bundle_calls, render_calls,
    progress_lines in *.
  destruct Ht as (H1 & H2 & H3 & H4 & H5).
  destruct (truthy (args !! "verbose")); simpl; eexists; (split; [reflexivity|]);
    simpl; rewrite ?omap_app, H1, H2, H3, H4, H5; simpl; auto.
Qed.

Arguments render_failed : simpl never.

(** Symbolic execution of a run: split on the first undecided test. *)
Ltac split_run :=
  match goal with
  | |- context [for_each ?l _ ?d] => rewrite (for_each_emit_run l _ d)
  | |- context [render_failed ?a (Raised ?e) ?d] =>
      let t := fresh "failure" in
      destruct (render_failed_exits a e d) as (t & -> & ? & ? & ? & ? & ?)
  | |- context [render_failed ?a (RaisedOther ?x) ?d] => unfold render_failed
  | |- context [render_failed ?a RaisedNullish ?d] => unfold render_failed
  | |- context [render_failed ?a ?e ?d] => is_var e; destruct e
  | |- context [truthy ?y] =>
      lazymatch y with
      | Some _ => fail
      | None => fail
      | _ => destruct y as [[|[|? ?]|?]|] eqn:?
      end
  | |- context [match ?x with _ => _ end] =>
      lazymatch x with
      | context [match _ with _ => _ end] => fail
      | _ => destruct x eqn:?
      end
  end; simpl.

Arguments holds_for : simpl never.

(** States the goal as one property of the result of the run. *)
Ltac about_run w0 :=
  pattern (run w0);
  match goal with
  | |- ?P (run w0) => change (holds_for P (run w0))
  end.

Ltac unfold_run :=
  unfold run, main, resolve_paths, extract_config, render_pipeline,
    extraction_failed, release_staging, choose_outputPath.

(** The choice of the output path prints nothing; it returns a path or
    throws the [TypeError] of [path.resolve]. *)
Lemma choose_outputPath_cases (w : world) (args : gmap string jsval) (abs : string)
    (dir : option string) :
  (exists p, choose_outputPath w args abs dir = mkResult [] dir (Returned p))
  \/ (exists e : error, choose_outputPath w args abs dir = mkResult [] dir (Thrown e)).
Proof.
  unfold choose_outputPath.
  destruct (args !! "output") as [[|[|c o]|l]|]; simpl; eauto.
Qed.

Arguments choose_outputPath : simpl never.

(** The run unfolded with the output path left as it comes. *)
Ltac unfold_phases :=
  unfold run, main, resolve_paths, extract_config, render_pipeline,
    extraction_failed, release_staging.

Ltac split_output :=
  match goal with
  | |- context [choose_outputPath ?w0 ?a ?p ?d] =>
      destruct (choose_outputPath_cases w0 a p d) as [[? ->]|[? ->]]; simpl
  end.

Ltac read_trace :=
  unfold cleanup_calls, staging_calls, bundle_calls, render_calls, progress_lines in *;
  repeat (simpl;
          rewrite ?omap_app;
          rewrite ?omap_map_none by (intros; reflexivity);
          repeat match goal with
                 | H : omap ?f ?t = [] |- context [omap ?f ?t] => rewrite H
                 end).

(** ** The staging directory *)

(** No run that ends in [process.exit] has called [cleanupTempProject]:
    the [try] block and, on an [Error], the [catch] block end in
    [process.exit], which leaves the [finally] block unexecuted. *)
Lemma exiting_run_never_releases_staging (w : world) (code : Z) :
  out (run w) = Exited code -> cleanup_calls (trace (run w)) = [].
Proof.
  unfold_run. simpl. repeat split_run; read_trace; intros Hexit;
    solve [reflexivity | discriminate Hexit].
Qed.

(** The [finally] block itself is sound: after a body that completes, by
    returning or by throwing, with a staging directory recorded, the
    directory is released. *)
Lemma finally_releases_after_completion (body : M unit) (d : string) :
  (forall code, out (body None) ≠ Exited code) ->
  tempProjectDir (body None) = Some d ->
  cleanup_calls (trace (try_finally body release_staging None))
  = (cleanup_calls (trace (body None)) ++ [d])%list.
Proof.
  intros Hexit Hdir. unfold try_finally, release_staging, cleanup_calls.
  destruct (body None) as [t d0 [a|e|code]]; simpl in *; subst; simpl.
  - rewrite omap_app. reflexivity.
  - rewrite omap_app. reflexivity.
  - by destruct (Hexit code).
Qed.

(** C1, on a run the claim covers: with every collaborator succeeding, the
    staging project is created and recorded in [tempProjectDir], the process
    exits with status 0, and [cleanupTempProject] has not been invoked on
    the staging directory, which the claim says is released on every exit
    path. *)
Theorem staging_left_behind_after_success :
  let r := run (sample_world ["--input=demo.tsx"] sample_config [] []) in
  staging_calls (trace r) = [("/home/user/videos/demo.tsx", sample_config)]
  /\ tempProjectDir r = Some "/tmp/remotion-render-1"
  /\ out r = Exited 0
  /\ cleanup_calls (trace r) = [].
Proof. vm_compute. repeat split; reflexivity. Qed.

(** The same on a failing run: the bundler throws after staging. *)
Lemma staging_left_behind_after_failure :
  let r := run (failing_bundle_world ["--input=demo.tsx"] "ENOENT: no such file") in
  staging_calls (trace r) = [("/home/user/videos/demo.tsx", sample_config)]
  /\ tempProjectDir r = Some "/tmp/remotion-render-1"
  /\ out r = Exited 1
  /\ cleanup_calls (trace r) = [].
Proof. vm_compute. repeat split; reflexivity. Qed.

(** The [finally] block is reached when the [catch] block itself throws:
    a renderer that rejects with a value without a [message] makes
    [includes] fail there, and the staging directory is released. *)
Lemma staging_released_when_catch_throws :
  let r := run (rejecting_render_world ["--input=demo.tsx"]) in
  tempProjectDir r = Some "/tmp/remotion-render-1"
  /\ (exists e : error, out r = Thrown e /\ err_name e = "TypeError")
  /\ cleanup_calls (trace r) = ["/tmp/remotion-render-1"].
Proof. vm_compute. split; [reflexivity|]. split; [eexists; split; reflexivity|reflexivity]. Qed.

(** ** The webpack override *)

Lemma prepend_modules_spec (dir : string) (slot : option resolve_options) :
  modules (prepend_modules dir slot)
  = Some (dir :: default ["node_modules"] (slot ≫= modules)).
Proof. destruct slot as [[m o]|]; reflexivity. Qed.

(** C8: the configuration returned by the override lists the renderer's
    own [node_modules] first in both [resolve.modules] and
    [resolveLoader.modules], followed by the entries that were there (the
    default [node_modules] when there were none); and the one bundler call
    a run makes carries the override applied with that directory. *)
Theorem override_prepends_renderer_modules (w : world) (dir : string)
    (webpackConfig : webpack_config) :
  (resolve (webpackOverride dir webpackConfig) ≫= modules
     = Some (dir :: default ["node_modules"] (resolve webpackConfig ≫= modules)))
  /\ (resolveLoader (webpackOverride dir webpackConfig) ≫= modules
     = Some (dir :: default ["node_modules"] (resolveLoader webpackConfig ≫= modules)))
  /\ config_other (webpackOverride dir webpackConfig) = config_other webpackConfig
  /\ (bundle_calls (trace (run w)) = []
      \/ exists entryPoint,
           bundle_calls (trace (run w))
           = [(entryPoint,
               webpackOverride
                 (Path.resolve (cwd w) [script_dirname w; "node_modules"])
                 (webpack_base w))]).
Proof.
  split; [|split; [|split]].
  - unfold webpackOverride. simpl. apply prepend_modules_spec.
  - unfold webpackOverride. simpl. apply prepend_modules_spec.
  - reflexivity.
  - unfold_run. simpl. repeat split_run; read_trace; eauto.
Qed.

(** ** Exit status *)


(** ** Strings *)

Arguments JsString.drop : simpl nomatch.
Arguments JsString.take : simpl nomatch.

(** Membership in a list written out. *)
Ltac find_member :=
  solve [repeat first [apply list_elem_of_here | apply list_elem_of_further]].

Lemma append_cons (x : ascii) (a b : string) : String x a +:+ b = String x (a +:+ b).
Proof. reflexivity. Qed.

Lemma append_nil_l (b : string) : "" +:+ b = b.
Proof. reflexivity. Qed.

(** Concatenations are kept folded by [simpl]; this pushes them inwards. *)
Ltac push_append := rewrite ?append_cons, ?append_nil_l.

Lemma append_assoc (a b c : string) : (a +:+ b) +:+ c = a +:+ b +:+ c.
Proof. induction a as [|x a IH]; push_append; congruence. Qed.

Lemma append_nil_r (a : string) : a +:+ "" = a.
Proof. induction a as [|x a IH]; push_append; congruence. Qed.

Lemma length_append (a b : string) :
  String.length (a +:+ b) = (String.length a + String.length b)%nat.
Proof. induction a as [|x a IH]; push_append; simpl; congruence. Qed.

Lemma drop_append (a b : string) : JsString.drop (String.length a) (a +:+ b) = b.
Proof. induction a as [|x a IH]; push_append; simpl; [by destruct b|exact IH]. Qed.

Lemma drop_append_cons (a b : string) (c : ascii) :
  JsString.drop (S (String.length a)) (a +:+ String c b) = b.
Proof. induction a as [|x a IH]; push_append; simpl; [by destruct b|exact IH]. Qed.

Lemma take_append (a b : string) : JsString.take (String.length a) (a +:+ b) = a.
Proof. induction a as [|x a IH]; push_append; simpl; [by destruct b|congruence]. Qed.

Lemma indexOf_bounds (s : string) (c : ascii) : -1 <= JsString.indexOf s c.
Proof.
  induction s as [|a s IH]; simpl; [lia|].
  destruct (decide (a = c)); [lia|].
  destruct (JsString.indexOf s c <? 0) eqn:E; lia.
Qed.

Lemma indexOf_absent (s : string) (c : ascii) :
  occurs c s = false -> JsString.indexOf s c = -1.
Proof.
  induction s as [|a s IH]; simpl; [reflexivity|].
  intros H. apply orb_false_iff in H as [Ha Hs].
  apply bool_decide_eq_false in Ha.
  destruct (decide (a = c)); [contradiction|].
  rewrite (IH Hs). reflexivity.
Qed.

Lemma indexOf_first (a b : string) (c : ascii) :
  occurs c a = false ->
  JsString.indexOf (a +:+ String c b) c = Z.of_nat (String.length a).
Proof.
  induction a as [|x a IH]; push_append; simpl.
  - intros _. destruct (decide (c = c)); [reflexivity|contradiction].
  - intros H. apply orb_false_iff in H as [Hx Ha].
    apply bool_decide_eq_false in Hx.
    destruct (decide (x = c)); [contradiction|].
    rewrite (IH Ha).
    destruct (Z.of_nat (String.length a) <? 0) eqn:E; [apply Z.ltb_lt in E|]; lia.
Qed.

(** ** Quote stripping *)

Lemma strip_trailing_quote_last (body : string) (q : ascii) :
  JsString.is_quote q = true ->
  JsString.strip_trailing_quote (body +:+ String q "") = body.
Proof.
  intros Hq. induction body as [|c body IH]; push_append.
  - simpl. by rewrite Hq.
  - simpl. rewrite IH. destruct body; push_append; reflexivity.
Qed.

Lemma strip_trailing_quote_kept (body : string) (c : ascii) :
  JsString.is_quote c = false ->
  JsString.strip_trailing_quote (body +:+ String c "") = body +:+ String c "".
Proof.
  intros Hc. induction body as [|x body IH]; push_append.
  - simpl. by rewrite Hc.
  - simpl. rewrite IH. destruct body; push_append; reflexivity.
Qed.

Lemma strip_quotes_surrounded (q1 q2 : ascii) (body : string) :
  JsString.is_quote q1 = true -> JsString.is_quote q2 = true ->
  JsString.strip_quotes (String q1 (body +:+ String q2 "")) = body.
Proof.
  intros H1 H2. unfold JsString.strip_quotes. rewrite H1.
  by apply strip_trailing_quote_last.
Qed.

(** A value that neither starts nor ends with a quote is left alone. *)
Lemma strip_quotes_unquoted (c1 c2 : ascii) (body : string) :
  JsString.is_quote c1 = false -> JsString.is_quote c2 = false ->
  JsString.strip_quotes (String c1 (body +:+ String c2 ""))
  = String c1 (body +:+ String c2 "").
Proof.
  intros H1 H2. unfold JsString.strip_quotes. rewrite H1.
  by apply (strip_trailing_quote_kept (String c1 body)).
Qed.

Lemma strip_trailing_quote_shape (s : string) :
  exists post,
    s = JsString.strip_trailing_quote s +:+ post
    /\ (post = "" \/ exists q, JsString.is_quote q = true /\ post = String q "").
Proof.
  induction s as [|c s IH].
  - exists "". split; [reflexivity|by left].
  - destruct s as [|c' s'].
    + simpl. destruct (JsString.is_quote c) eqn:Hq.
      * exists (String c ""). split; [reflexivity|]. right. by exists c.
      * exists "". split; [reflexivity|by left].
    + destruct IH as (post & Hs & Hpost). exists post. split; [|exact Hpost].
      change (JsString.strip_trailing_quote (String c (String c' s')))
        with (String c (JsString.strip_trailing_quote (String c' s'))).
      rewrite append_cons. by rewrite <- Hs.
Qed.

(** What the replace call leaves of a value, whatever the value. *)
Lemma strip_quotes_shape (value : string) :
  quotes_removed value (JsString.strip_quotes value).
Proof.
  unfold quotes_removed. destruct value as [|c rest].
  - exists "", "". split; [reflexivity|]. split; [by left|]. split; [by left|].
    split; [discriminate|]. intros [|x body] q H; [contradiction|discriminate].
  - assert (Hlast : forall s post body q,
               s = JsString.strip_trailing_quote s +:+ post ->
               s = body +:+ String q "" -> JsString.is_quote q = true ->
               post = String q "").
    { intros s post body q Hs Hbody Hq. subst s.
      rewrite strip_trailing_quote_last in Hs by exact Hq.
      clear -Hs. induction body as [|x body IH]; push_append; [|].
      - rewrite !append_nil_l in Hs. congruence.
      - rewrite !append_cons in Hs. injection Hs as Hs. by apply IH. }
    unfold JsString.strip_quotes. destruct (JsString.is_quote c) eqn:Hc.
    + destruct (strip_trailing_quote_shape rest) as (post & Hs & Hpost).
      exists (String c ""), post. split; [|split; [|split; [|split]]].
      * push_append. by rewrite <- Hs.
      * right. by exists c.
      * exact Hpost.
      * by intros q rest' [= -> ->] _.
      * intros [|x body] q Hv Hne Hq; [contradiction|].
        rewrite append_cons in Hv. injection Hv as -> Hv.
        by apply (Hlast rest post body q).
    + destruct (strip_trailing_quote_shape (String c rest)) as (post & Hs & Hpost).
      exists "", post. split; [|split; [|split; [|split]]].
      * push_append. exact Hs.
      * by left.
      * exact Hpost.
      * intros q rest' [= -> ->] Hq. congruence.
      * intros body q Hv _ Hq. by apply (Hlast (String c rest) post body q).
Qed.

(** ** Argument parsing *)

Lemma set_property_other (key : string) (value : jsval) (args : gmap string jsval) :
  key ≠ "__proto__" -> set_property key value args = <[key := value]> args.
Proof. intros H. unfold set_property. by rewrite bool_decide_eq_false_2. Qed.

Lemma lookup_set_property_eq (key : string) (value : jsval) (args : gmap string jsval) :
  key ≠ "__proto__" -> set_property key value args !! key = Some value.
Proof. intros H. rewrite set_property_other by exact H. apply lookup_insert_eq. Qed.

Lemma lookup_set_property_ne (k key : string) (value : jsval) (args : gmap string jsval) :
  key ≠ k -> set_property key value args !! k = args !! k.
Proof.
  intros H. unfold set_property. destruct (bool_decide (key = "__proto__")); [reflexivity|].
  by apply lookup_insert_ne.
Qed.

Lemma arg_key_assignment (key value : string) :
  occurs "="%char key = false ->
  arg_key ("--" +:+ key +:+ "=" +:+ value) = Some key
  /\ arg_value ("--" +:+ key +:+ "=" +:+ value) = JStr (JsString.strip_quotes value).
Proof.
  intros Hk. unfold arg_key, arg_value. push_append. simpl.
  rewrite (indexOf_first key value _ Hk).
  assert (Hlt : (Z.of_nat (String.length key) <? 0) = false)
    by (apply Z.ltb_ge; lia).
  rewrite Hlt. simpl.
  assert (Hlt1 : (Z.of_nat (String.length key) + 1 <? 0) = false)
    by (apply Z.ltb_ge; lia).
  rewrite Hlt1. simpl.
  assert (Hpos : (0 <? Z.of_nat (String.length key) + 1 + 1) = true)
    by (apply Z.ltb_lt; lia).
  rewrite Hpos.
  unfold JsString.slice, JsString.slice_from.
  replace (Z.to_nat (Z.of_nat (String.length key) + 1 + 1 - 2)) with (String.length key) by lia.
  replace (Z.to_nat (Z.of_nat (String.length key) + 1 + 1 + 1))
    with (S (S (S (String.length key)))) by lia.
  simpl. rewrite take_append, drop_append_cons. split; reflexivity.
Qed.

Lemma arg_key_flag (flag : string) :
  occurs "="%char flag = false ->
  arg_key ("--" +:+ flag) = Some flag /\ arg_value ("--" +:+ flag) = JTrue.
Proof.
  intros Hf. unfold arg_key, arg_value. push_append. simpl.
  rewrite (indexOf_absent _ _ Hf). simpl. split; reflexivity.
Qed.

Lemma parseArg_flag (args : gmap string jsval) (arg k : string) :
  arg_key arg = Some k -> parseArg args arg = inr (set_property k (arg_value arg) args).
Proof.
  unfold arg_key, parseArg, arg_value.
  destruct (JsString.startsWith arg "--"); [|discriminate].
  intros [= <-]. by destruct (0 <? JsString.indexOf arg "=").
Qed.

Lemma parseArg_positional (args : gmap string jsval) (arg : string) (l : list string) :
  arg_key arg = None -> args !! "_positional" = positional_value l ->
  parseArg args arg = inr (<["_positional" := JArr (l ++ [arg])]> args).
Proof.
  unfold arg_key, parseArg.
  destruct (JsString.startsWith arg "--"); [discriminate|].
  intros _ Hl. rewrite Hl. by destruct l.
Qed.

Lemma assigned_cons (k : string) (cur : option jsval) (a : string) (l : list string) :
  assigned k cur (a :: l)
  = assigned k (if decide (arg_key a = Some k) then Some (arg_value a) else cur) l.
Proof. reflexivity. Qed.

Lemma assigned_untouched (k : string) (cur : option jsval) (argv : list string) :
  (forall a, a ∈ argv -> arg_key a ≠ Some k) -> assigned k cur argv = cur.
Proof.
  revert cur.
  induction argv as [|a argv IH]; intros cur H; [reflexivity|].
  rewrite assigned_cons.
  destruct (decide (arg_key a = Some k)) as [E|_].
  - exfalso. apply (H a); [left|exact E].
  - apply IH. intros b Hb. apply H. by right.
Qed.

Lemma assigned_app (k : string) (cur : option jsval) (l1 l2 : list string) :
  assigned k cur (l1 ++ l2) = assigned k (assigned k cur l1) l2.
Proof. unfold assigned. apply fold_left_app. Qed.

(** A command line that does not assign to [_positional] parses; the
    positional arguments are collected in order and every other property,
    [__proto__] apart, holds the value of the last argument assigning to
    it. *)
Lemma parseArgs_from_spec (argv : list string) :
  forall (acc : gmap string jsval) (l0 : list string),
  acc !! "_positional" = positional_value l0 ->
  (forall a, a ∈ argv -> arg_key a ≠ Some "_positional") ->
  exists args,
    parseArgs_from acc argv = inr args
    /\ args !! "_positional" = positional_value (l0 ++ positionals argv)
    /\ forall k, k ≠ "_positional" -> k ≠ "__proto__" ->
         args !! k = assigned k (acc !! k) argv.
Proof.
  induction argv as [|a argv IH]; intros acc l0 Hacc Hkeys.
  - exists acc. simpl. rewrite app_nil_r. auto.
  - assert (Hrest : forall b, b ∈ argv -> arg_key b ≠ Some "_positional")
      by (intros b Hb; apply Hkeys; by right).
    assert (Ha : arg_key a ≠ Some "_positional") by (apply Hkeys; left).
    cbn [parseArgs_from]. destruct (arg_key a) as [k|] eqn:Ek.
    + rewrite (parseArg_flag acc a k Ek).
      assert (Hne : k ≠ "_positional") by congruence.
      destruct (IH (set_property k (arg_value a) acc) l0) as (args & Hp & Hpos & Hk); auto.
      { by rewrite lookup_set_property_ne. }
      exists args. split; [exact Hp|]. split.
      * rewrite Hpos. unfold positionals. rewrite filter_cons_False; [done|].
        rewrite Ek. congruence.
      * intros k' Hk' Hproto. rewrite (Hk k' Hk' Hproto), assigned_cons, Ek.
        destruct (decide (Some k = Some k')) as [[= ->]|Hd].
        -- by rewrite lookup_set_property_eq.
        -- rewrite lookup_set_property_ne; [done|congruence].
    + rewrite (parseArg_positional acc a l0 Ek Hacc).
      destruct (IH (<["_positional" := JArr (l0 ++ [a])]> acc) (l0 ++ [a])%list)
        as (args & Hp & Hpos & Hk); auto.
      { rewrite lookup_insert_eq. by destruct l0. }
      exists args. split; [exact Hp|]. split.
      * rewrite Hpos. unfold positionals. rewrite filter_cons_True by exact Ek.
        by rewrite <- app_assoc.
      * intros k' Hk' Hproto. rewrite (Hk k' Hk' Hproto), assigned_cons, Ek.
        destruct (decide (None = Some k')); [discriminate|].
        by rewrite lookup_insert_ne.
Qed.

Lemma parseArgs_spec (argv : list string) :
  (forall a, a ∈ argv -> arg_key a ≠ Some "_positional") ->
  exists args,
    parseArgs argv = inr args
    /\ args !! "_positional" = positional_value (positionals argv)
    /\ forall k, k ≠ "_positional" -> k ≠ "__proto__" ->
         args !! k = assigned k None argv.
Proof.
  intros H. destruct (parseArgs_from_spec argv ∅ [] (lookup_empty _) H)
    as (args & Hp & Hpos & Hk).
  exists args. split; [exact Hp|]. split; [exact Hpos|].
  intros k Hne Hproto. rewrite (Hk k Hne Hproto). by rewrite lookup_empty.
Qed.

Lemma not_positional_elsewhere (before after : list string) (a k : string) :
  arg_key a = Some k -> k ≠ "_positional" ->
  (forall b, b ∈ (before ++ after)%list -> arg_key b ≠ Some "_positional") ->
  forall b, b ∈ (before ++ a :: after)%list -> arg_key b ≠ Some "_positional".
Proof.
  intros Hk Hne H b Hb. apply elem_of_app in Hb as [Hb|Hb].
  - apply H, elem_of_app. by left.
  - apply elem_of_cons in Hb as [->|Hb].
    + rewrite Hk. congruence.
    + apply H, elem_of_app. by right.
Qed.

Lemma positionals_skip_option (before after : list string) (a k : string) :
  arg_key a = Some k ->
  positionals (before ++ a :: after) = positionals (before ++ after).
Proof.
  intros Hk. unfold positionals. rewrite !filter_app.
  rewrite filter_cons_False by (rewrite Hk; discriminate). reflexivity.
Qed.

(** What an option leaves in [args] when no later argument assigns to the
    same property. *)
Lemma parseArgs_option (before after : list string) (a k : string) :
  arg_key a = Some k -> k ≠ "_positional" -> k ≠ "__proto__" ->
  (forall b, b ∈ after -> arg_key b ≠ Some k) ->
  (forall b, b ∈ (before ++ after)%list -> arg_key b ≠ Some "_positional") ->
  exists args,
    parseArgs (before ++ a :: after) = inr args
    /\ args !! k = Some (arg_value a)
    /\ args !! "_positional" = positional_value (positionals (before ++ after))
    /\ forall k', k' ≠ "_positional" -> k' ≠ "__proto__" -> k' ≠ k ->
         args !! k' = assigned k' None (before ++ after).
Proof.
  intros Hk Hne Hproto Hafter Hpos.
  destruct (parseArgs_spec (before ++ a :: after)%list
              (not_positional_elsewhere before after a k Hk Hne Hpos))
    as (args & Hp & Hposl & Hkeys).
  exists args. split; [exact Hp|]. split; [|split].
  - rewrite (Hkeys k Hne Hproto), assigned_app, assigned_cons, Hk.
    destruct (decide (Some k = Some k)); [|contradiction].
    by apply assigned_untouched.
  - rewrite Hposl. f_equal. by apply (positionals_skip_option before after a k).
  - intros k' Hne' Hproto' Hkk.
    rewrite (Hkeys k' Hne' Hproto'), !assigned_app, assigned_cons, Hk.
    destruct (decide (Some k = Some k')) as [[= E]|_]; [by subst|reflexivity].
Qed.

(** C10, as amended: for a key other than [__proto__], an argument
    [--key=value] stores the value without the quote character, single or
    double, that starts it and without the one that ends it, where there is
    one; so a value wrapped in quotes loses exactly that layer, and a value
    with no quote at either end is stored as it is.  An argument [--flag]
    without an equals sign, other than [--__proto__], stores [true]; and
    with [verbose] set that way the report of a failure prints the stack of
    the error. *)
Theorem parseArgs_strips_quotes_and_sets_flags
    (args : gmap string jsval) (key value flag body plain : string)
    (q1 q2 c1 c2 : ascii) (err : error) (dir : option string) :
  occurs "="%char key = false -> key ≠ "__proto__" ->
  occurs "="%char flag = false -> flag ≠ "__proto__" ->
  JsString.is_quote q1 = true -> JsString.is_quote q2 = true ->
  JsString.is_quote c1 = false -> JsString.is_quote c2 = false ->
  (exists stored,
     parseArg args ("--" +:+ key +:+ "=" +:+ value) = inr (<[key := JStr stored]> args)
     /\ quotes_removed value stored)
  /\ parseArg args ("--" +:+ key +:+ "=" +:+ String q1 (body +:+ String q2 ""))
     = inr (<[key := JStr body]> args)
  /\ parseArg args ("--" +:+ key +:+ "=" +:+ String c1 (plain +:+ String c2 ""))
     = inr (<[key := JStr (String c1 (plain +:+ String c2 ""))]> args)
  /\ parseArg args ("--" +:+ flag) = inr (<[flag := JTrue]> args)
  /\ (exists args', parseArgs ["--verbose"] = inr args'
                    /\ args' !! "verbose" = Some JTrue)
  /\ err_stack err
       ∈ console_lines (trace (render_failed (<["verbose" := JTrue]> args) err dir)).
Proof.
  intros Hkey Hkp Hflag Hfp Hq1 Hq2 Hc1 Hc2.
  assert (Hstore : forall v,
             parseArg args ("--" +:+ key +:+ "=" +:+ v)
             = inr (<[key := JStr (JsString.strip_quotes v)]> args)).
  { intros v. destruct (arg_key_assignment key v Hkey) as [Hk Hv].
    rewrite (parseArg_flag _ _ _ Hk), Hv. by rewrite set_property_other. }
  destruct (arg_key_flag flag Hflag) as [Hfk Hfv].
  split; [|split; [|split; [|split; [|split]]]].
  - exists (JsString.strip_quotes value). split; [apply Hstore|apply strip_quotes_shape].
  - by rewrite Hstore, strip_quotes_surrounded.
  - by rewrite Hstore, strip_quotes_unquoted.
  - rewrite (parseArg_flag _ _ _ Hfk), Hfv. by rewrite set_property_other.
  - eexists. split; [reflexivity|]. apply lookup_insert_eq.
  - unfold render_failed. simpl.
    destruct (print_hints_returns (err_message err) dir) as (t & -> & _).
    rewrite lookup_insert_eq. simpl.
    unfold console_lines. simpl. rewrite omap_app. simpl.
    apply elem_of_app. right. find_member.
Qed.

Lemma parseArgs_strips_quotes_and_sets_flags_witness :
  (exists stored,
     parseArg ∅ "--output='clip.mp4" = inr (<["output" := JStr stored]> ∅)
     /\ quotes_removed "'clip.mp4" stored)
  /\ parseArg ∅ "--output='my clip.mp4'" = inr (<["output" := JStr "my clip.mp4"]> ∅)
  /\ parseArg ∅ "--output=clip.mp4" = inr (<["output" := JStr "clip.mp4"]> ∅)
  /\ parseArg ∅ "--verbose" = inr (<["verbose" := JTrue]> ∅)
  /\ (exists args', parseArgs ["--verbose"] = inr args'
                    /\ args' !! "verbose" = Some JTrue)
  /\ "Error: boom"
       ∈ console_lines
           (trace (render_failed (<["verbose" := JTrue]> ∅)
                     (mkError "Error" "boom" "Error: boom") None)).
Proof.
  apply (parseArgs_strips_quotes_and_sets_flags ∅ "output" "'clip.mp4" "verbose"
           "my clip.mp4" "lip.mp" "'"%char "'"%char "c"%char "4"%char
           (mkError "Error" "boom" "Error: boom") None).
  - reflexivity.
  - discriminate.
  - reflexivity.
  - discriminate.
  - reflexivity.
  - reflexivity.
  - reflexivity.
  - reflexivity.
Defined.

(** C10, the claim as stated: an argument named [__proto__], with or
    without a value, sets no property of [args], the assignment being taken
    by the setter that [{}] inherits; the flag is not mapped to [true] and
    the value is not stored. *)
Lemma proto_option_sets_no_property :
  parseArgs ["--__proto__"] = inr ∅
  /\ parseArgs ["--__proto__='x'"] = inr ∅
  /\ (exists args,
        parseArgs ["--__proto__"; "--verbose"] = inr args
        /\ args !! "__proto__" = None /\ args !! "verbose" = Some JTrue).
Proof.
  split; [reflexivity|]. split; [reflexivity|].
  eexists. split; [reflexivity|]. split; reflexivity.
Qed.

(** ** The input path *)






(** ** Exit status (continued) *)





(** ** Phases of a run *)

Lemma resolve_paths_quiet (w : world) (dir : option string) :
  tempProjectDir (resolve_paths w dir) = dir /\ silent (trace (resolve_paths w dir)).
Proof.
  unfold silent. unfold_run. simpl.
  repeat split_run; read_trace; repeat split; reflexivity.
Qed.

Lemma bind_returned {A B} (m : M A) (k : A -> M B) (dir : option string) (a : A) :
  out (m dir) = Returned a ->
  bind m k dir = after (trace (m dir)) (k a (tempProjectDir (m dir))).
Proof.
  intros H. unfold bind, after.
  destruct (m dir) as [t d o]; simpl in *; subst. by destruct (k a d).
Qed.

Lemma after_after (t1 t2 : list event) {A} (r : result A) :
  after t1 (after t2 r) = after (t1 ++ t2) r.
Proof. unfold after. simpl. by rewrite app_assoc. Qed.

Lemma silent_app (t1 t2 : list event) : silent t1 -> silent t2 -> silent (t1 ++ t2).
Proof.
  unfold silent, cleanup_calls, staging_calls, bundle_calls, render_calls, progress_lines.
  intros (H1 & H2 & H3 & H4 & H5) (G1 & G2 & G3 & G4 & G5).
  rewrite !omap_app, H1, H2, H3, H4, H5, G1, G2, G3, G4, G5. auto.
Qed.

Lemma extract_config_returns (w : world) (abs : string) (cfg : config)
    (dir : option string) :
  extractCompositionConfig w abs = inr cfg ->
  exists t, extract_config w abs dir = mkResult t dir (Returned cfg) /\ silent t.
Proof.
  intros H. unfold extract_config. simpl. rewrite H. simpl.
  eexists. split; [reflexivity|]. unfold silent. read_trace. auto.
Qed.

Lemma run_after_paths (w : world) (args : gmap string jsval) (abs outp : string) :
  out (resolve_paths w None) = Returned (args, abs, outp) ->
  run w
  = after (trace (resolve_paths w None))
      ((cfg <- extract_config w abs ;;
        try_finally
          (try_catch (render_pipeline w abs outp cfg) (render_failed args))
          release_staging) None).
Proof.
  intros H. destruct (resolve_paths_quiet w None) as [Hd _].
  unfold run, main. rewrite (bind_returned _ _ _ _ H), Hd. reflexivity.
Qed.

Lemma run_after_extraction (w : world) (args : gmap string jsval) (abs outp : string)
    (cfg : config) :
  out (resolve_paths w None) = Returned (args, abs, outp) ->
  extractCompositionConfig w abs = inr cfg ->
  exists t0,
    silent t0
    /\ run w
       = after t0
           (try_finally
              (try_catch (render_pipeline w abs outp cfg) (render_failed args))
              release_staging None).
Proof.
  intros H Hc. rewrite (run_after_paths w args abs outp H).
  destruct (resolve_paths_quiet w None) as [_ Hs].
  destruct (extract_config_returns w abs cfg None Hc) as (t & Ht & Hst).
  rewrite (bind_returned _ _ _ cfg) by (by rewrite Ht).
  rewrite Ht. cbn [trace tempProjectDir]. rewrite after_after.
  eexists. split; [|reflexivity]. by apply silent_app.
Qed.

(** ** Extraction failures *)

Lemma includes_here (s p : string) : JsString.includes (p +:+ s) p = true.
Proof.
  assert (H : forall p s, JsString.startsWith (p +:+ s) p = true).
  { clear. induction p as [|c p IH]; intros s; push_append; simpl; [reflexivity|].
    destruct (decide (c = c)); [apply IH|contradiction]. }
  destruct (p +:+ s) eqn:E; simpl; rewrite <- E, H; reflexivity.
Qed.

Lemma includes_append_l (a s p : string) :
  JsString.includes s p = true -> JsString.includes (a +:+ s) p = true.
Proof.
  intros H. induction a as [|c a IH]; push_append; [exact H|].
  simpl. rewrite IH. apply orb_true_r.
Qed.

(** The error of the extractor names its field. *)
Lemma ConfigExtractionError_names (field : string) :
  err_name (ConfigExtractionError field) = "ConfigExtractionError"
  /\ JsString.includes (err_message (ConfigExtractionError field)) field = true.
Proof.
  split; [reflexivity|]. unfold ConfigExtractionError. cbn [err_message].
  apply includes_append_l, includes_here.
Qed.

Lemma required_fields_cases (g : string) :
  g ∈ required_fields <->
  g = "id" \/ g = "durationInSeconds" \/ g = "fps" \/ g = "width" \/ g = "height".
Proof.
  unfold required_fields. rewrite list_elem_of_In. simpl.
  split; intros H; repeat destruct H as [H|H]; auto 10; contradiction.
Qed.

Lemma blame_field (src : gmap string literal) (field f : string) :
  f ∈ required_fields -> field_ok src f = false ->
  extractCompositionConfig_spec src = inl (ConfigExtractionError f) ->
  exists f0,
    f0 ∈ required_fields /\ field_ok src f0 = false
    /\ extractCompositionConfig_spec src = inl (ConfigExtractionError f0)
    /\ ((forall g, g ∈ required_fields -> g ≠ field -> field_ok src g = true) -> f0 = field).
Proof.
  intros Hf Hbad He. exists f. repeat split; auto.
  intros Hg. destruct (decide (f = field)) as [|Hne]; [assumption|].
  rewrite (Hg f Hf Hne) in Hbad. discriminate.
Qed.

(** The extractor fails on the first required field that is missing or has
    the wrong type. *)
Lemma extractCompositionConfig_spec_missing (src : gmap string literal) (field : string) :
  field ∈ required_fields -> field_ok src field = false ->
  exists f,
    f ∈ required_fields /\ field_ok src f = false
    /\ extractCompositionConfig_spec src = inl (ConfigExtractionError f)
    /\ ((forall g, g ∈ required_fields -> g ≠ field -> field_ok src g = true) -> f = field).
Proof.
  intros Hin Hbad. apply required_fields_cases in Hin.
  destruct (src !! "id") as [[i| |]|] eqn:E1;
    try (apply (blame_field _ _ "id");
         [apply required_fields_cases; auto 10
         |unfold field_ok; rewrite E1; reflexivity
         |unfold extractCompositionConfig_spec, string_field; rewrite E1; reflexivity]).
  destruct (src !! "durationInSeconds") as [[|d|]|] eqn:E2;
    try (apply (blame_field _ _ "durationInSeconds");
         [apply required_fields_cases; auto 10
         |unfold field_ok; rewrite E2; reflexivity
         |unfold extractCompositionConfig_spec, string_field, number_field;
          rewrite E1, E2; reflexivity]).
  destruct (src !! "fps") as [[|f|]|] eqn:E3;
    try (apply (blame_field _ _ "fps");
         [apply required_fields_cases; auto 10
         |unfold field_ok; rewrite E3; reflexivity
         |unfold extractCompositionConfig_spec, string_field, number_field;
          rewrite E1, E2, E3; reflexivity]).
  destruct (src !! "width") as [[|wd|]|] eqn:E4;
    try (apply (blame_field _ _ "width");
         [apply required_fields_cases; auto 10
         |unfold field_ok; rewrite E4; reflexivity
         |unfold extractCompositionConfig_spec, string_field, number_field;
          rewrite E1, E2, E3, E4; reflexivity]).
  destruct (src !! "height") as [[|ht|]|] eqn:E5;
    try (apply (blame_field _ _ "height");
         [apply required_fields_cases; auto 10
         |unfold field_ok; rewrite E5; reflexivity
         |unfold extractCompositionConfig_spec, string_field, number_field;
          rewrite E1, E2, E3, E4, E5; reflexivity]).
  exfalso. unfold field_ok in Hbad.
  destruct Hin as [->|[->|[->|[->| ->]]]];
    rewrite ?E1, ?E2, ?E3, ?E4, ?E5 in Hbad; discriminate.
Qed.

(** C3: when the configuration record of the input file lacks a required
    field, the extractor fails with a [ConfigExtractionError] naming a
    missing or ill-typed field - that very field when it is the only defect
    - the script reports it and exits with status 1, and
    [createTempProject] is never called. *)
Theorem missing_field_stops_before_staging
    (w : world) (src : gmap string literal) (field : string)
    (args : gmap string jsval) (abs outp : string) :
  out (resolve_paths w None) = Returned (args, abs, outp) ->
  extractCompositionConfig w abs = extractCompositionConfig_spec src ->
  field ∈ required_fields ->
  src !! field = None ->
  exists f,
    f ∈ required_fields /\ field_ok src f = false
    /\ extractCompositionConfig w abs = inl (ConfigExtractionError f)
    /\ err_name (ConfigExtractionError f) = "ConfigExtractionError"
    /\ JsString.includes (err_message (ConfigExtractionError f)) f = true
    /\ ((forall g, g ∈ required_fields -> g ≠ field -> field_ok src g = true) -> f = field)
    /\ EError ("Failed to extract composition config: "
               +:+ err_message (ConfigExtractionError f)) ∈ trace (run w)
    /\ out (run w) = Exited 1
    /\ exit_status (run w) = 1
    /\ staging_calls (trace (run w)) = [].
Proof.
  intros Hpaths Hext Hin Hnone.
  destruct (extractCompositionConfig_spec_missing src field Hin) as (f & Hf & Hbad & He & Honly).
  { unfold field_ok. by rewrite Hnone. }
  destruct (ConfigExtractionError_names f) as [Hname Hmsg].
  destruct (resolve_paths_quiet w None) as (_ & _ & Hstage & _).
  exists f. rewrite Hext.
  do 6 (split; [assumption|]).
  rewrite (run_after_paths w args abs outp Hpaths).
  unfold after, exit_status, extract_config, extraction_failed.
  cbn [bind emit try_catch of_sum throw console_log process_exit trace out tempProjectDir].
  rewrite Hext, He.
  cbn [bind emit try_catch of_sum throw console_log process_exit trace out tempProjectDir].
  split; [|split; [reflexivity|split; [reflexivity|]]].
  - apply elem_of_app. right. find_member.
  - unfold staging_calls in *. rewrite omap_app, Hstage. reflexivity.
Qed.

Lemma missing_field_stops_before_staging_witness :
  let src : gmap string literal :=
    <["id" := LString "X"]> (<["durationInSeconds" := LNumber (number_of_Z 5)]>
      (<["width" := LNumber (number_of_Z 1080)]>
        (<["height" := LNumber (number_of_Z 1920)]> ∅))) in
  let w := source_world ["--input=demo.tsx"] src in
  exists f,
    f ∈ required_fields /\ field_ok src f = false
    /\ extractCompositionConfig w "/home/user/videos/demo.tsx"
       = inl (ConfigExtractionError f)
    /\ err_name (ConfigExtractionError f) = "ConfigExtractionError"
    /\ JsString.includes (err_message (ConfigExtractionError f)) f = true
    /\ ((forall g, g ∈ required_fields -> g ≠ "fps" -> field_ok src g = true) -> f = "fps")
    /\ EError ("Failed to extract composition config: "
               +:+ err_message (ConfigExtractionError f)) ∈ trace (run w)
    /\ out (run w) = Exited 1
    /\ exit_status (run w) = 1
    /\ staging_calls (trace (run w)) = [].
Proof.
  intros src w.
  apply (missing_field_stops_before_staging w src "fps"
           (<["input" := JStr "demo.tsx"]> ∅) "/home/user/videos/demo.tsx"
           "/home/user/videos/demo_2024-03-09T14-05-07.mp4").
  - vm_compute. reflexivity.
  - reflexivity.
  - apply required_fields_cases. auto.
  - vm_compute. reflexivity.
Defined.

(** ** What the renderer is given *)

Arguments round_percent : simpl never.

(** C2, as amended: every call of [renderMedia] in a run carries a
    composition whose frame count is [Math.round(durationInSeconds * fps)]
    and whose [fps], [width] and [height] are those of the descriptor the
    extractor returned; a run in which every phase succeeds makes exactly
    one such call; and for 5 seconds at 30 frames per second the frame count
    is 150. *)
Theorem render_receives_descriptor (w : world) (opts : render_options) :
  opts ∈ render_calls (trace (run w)) ->
  (exists abs cfg,
     extractCompositionConfig w abs = inr cfg
     /\ comp_durationInFrames (r_composition opts)
        = Math_round (num_mul (durationInSeconds cfg) (fps cfg))
     /\ comp_fps (r_composition opts) = fps cfg
     /\ comp_width (r_composition opts) = width cfg
     /\ comp_height (r_composition opts) = height cfg)
  /\ (pipeline_succeeds w = true -> render_calls (trace (run w)) = [opts])
  /\ durationInFrames_of sample_config = number_of_Z 150.
Proof.
  intros Hin. split; [|split; [|vm_compute; reflexivity]]; revert Hin.
  - unfold_run. simpl. repeat split_run; read_trace; intros Hin;
      try (apply elem_of_nil in Hin; contradiction).
    all: apply list_elem_of_singleton in Hin; subst opts; simpl.
    all: eexists _, _; split; [eassumption|]; repeat split; reflexivity.
  - unfold pipeline_succeeds. unfold_run. simpl.
    repeat split_run; read_trace; intros Hin Hok;
      try discriminate; try (apply elem_of_nil in Hin; contradiction).
    all: apply list_elem_of_singleton in Hin; subst opts; reflexivity.
Qed.

Lemma render_receives_descriptor_witness :
  let w := sample_world ["--input=demo.tsx"] sample_config [] [] in
  let opts :=
    mkRender
      (mkComposition "X" (number_of_Z 150) (number_of_Z 30) (number_of_Z 1080)
         (number_of_Z 1920) [])
      "/tmp/remotion-bundle-1" "h264"
      "/home/user/videos/demo_2024-03-09T14-05-07.mp4" in
  (exists abs cfg,
     extractCompositionConfig w abs = inr cfg
     /\ comp_durationInFrames (r_composition opts)
        = Math_round (num_mul (durationInSeconds cfg) (fps cfg))
     /\ comp_fps (r_composition opts) = fps cfg
     /\ comp_width (r_composition opts) = width cfg
     /\ comp_height (r_composition opts) = height cfg)
  /\ (pipeline_succeeds w = true -> render_calls (trace (run w)) = [opts])
  /\ durationInFrames_of sample_config = number_of_Z 150.
Proof.
  intros w opts. apply (render_receives_descriptor w opts).
  vm_compute. apply list_elem_of_here.
Defined.

(** C2, the claim as stated: a descriptor that the data model accepts, a
    quarter of a second at one frame per second, gets a frame count of zero,
    and that is what the renderer is called with. *)
Lemma frame_count_below_one :
  let cfg := mkConfig "X" one_quarter (number_of_Z 1) (number_of_Z 1080) (number_of_Z 1920) in
  let w := sample_world ["--input=demo.tsx"] cfg [] [] in
  valid_descriptor cfg = true
  /\ durationInFrames_of cfg = S754_zero false
  /\ num_ltb (durationInFrames_of cfg) (number_of_Z 1) = true
  /\ map (fun o => comp_durationInFrames (r_composition o)) (render_calls (trace (run w)))
     = [S754_zero false].
Proof. vm_compute. repeat split; reflexivity. Qed.

(** ** Progress reports *)

Lemma reported_progress_app (label : string) (t1 t2 : list event) :
  reported_progress label (t1 ++ t2)
  = (reported_progress label t1 ++ reported_progress label t2)%list.
Proof.
  induction t1 as [|e t1 IH]; [reflexivity|].
  destruct e; simpl; try exact IH.
  repeat match goal with
         | |- context [match ?m with _ => _ end] =>
             is_var m; destruct m; try exact IH
         end.
  destruct (bool_decide _); simpl; by rewrite IH.
Qed.

Lemma reported_progress_percent (label l : string) (ps : list number) :
  reported_progress label (map (fun p => EProgress (percent_text l p)) ps)
  = if bool_decide (l = label) then map round_percent ps else [].
Proof.
  induction ps as [|p ps IH]; simpl.
  - by destruct (bool_decide (l = label)).
  - unfold percent_text at 1. simpl.
    destruct (bool_decide (l = label)); [f_equal|]; exact IH.
Qed.

Lemma reported_progress_none (label : string) (t : list event) :
  progress_lines t = [] -> reported_progress label t = [].
Proof.
  unfold progress_lines. induction t as [|e t IH]; [reflexivity|].
  destruct e; simpl; try exact IH. discriminate.
Qed.

(** C5, as amended: the percentages shown during bundling are, for each
    call of the bundler the run makes, the values that call delivered, every
    one of them, each passed through [Math.round(p * 100)], in delivery
    order, and likewise for the renderer during rendering; nothing is
    dropped, reordered or clamped on the way, and nothing else is shown
    under these two labels. *)
Theorem progress_is_reported_as_delivered (w : world) :
  reported_progress "Bundling: " (trace (run w))
  = flat_map (fun call => map round_percent (fst (bundle w (fst call) (snd call))))
      (bundle_calls (trace (run w)))
  /\ reported_progress "Rendering: " (trace (run w))
     = flat_map (fun opts => map round_percent (fst (renderMedia w opts)))
         (render_calls (trace (run w))).
Proof.
  about_run w. unfold_phases. simpl. repeat first [split_output | split_run].
  all: unfold holds_for.
  all: repeat (simpl;
               rewrite ?reported_progress_app;
               rewrite ?reported_progress_percent;
               repeat match goal with
                      | H : progress_lines ?t = [] |- context [reported_progress ?l ?t] =>
                          rewrite (reported_progress_none l t H)
                      end).
  all: read_trace.
  all: simpl; rewrite ?app_nil_r; split; reflexivity.
Qed.

(** C5, the claim as stated: a bundler delivering one half and then one
    quarter has 50 and then 25 reported, and a renderer delivering one and a
    half has 150 reported. *)
Lemma progress_neither_monotone_nor_clamped :
  let w := sample_world ["--input=demo.tsx"] sample_config
             [one_half; one_quarter] [one_and_a_half] in
  reported_progress "Bundling: " (trace (run w)) = [number_of_Z 50; number_of_Z 25]
  /\ nondecreasing (reported_progress "Bundling: " (trace (run w))) = false
  /\ reported_progress "Rendering: " (trace (run w)) = [number_of_Z 150]
  /\ forallb within_percent (reported_progress "Rendering: " (trace (run w))) = false.
Proof. vm_compute. repeat split; reflexivity. Qed.

(** ** Hints for unresolved modules *)

Lemma startsWith_append (p s : string) : JsString.startsWith (p +:+ s) p = true.
Proof.
  induction p as [|c p IH]; push_append; simpl; [reflexivity|].
  destruct (decide (c = c)); [apply IH|contradiction].
Qed.

(** A pattern whose first character does not occur again in it cannot start
    inside [a] and run over into a following copy of itself. *)
Lemma startsWith_no_overlap (c : ascii) (q a y : string) :
  occurs c q = false ->
  JsString.startsWith a q = false ->
  JsString.startsWith (a +:+ String c y) q = false.
Proof.
  revert a. induction q as [|q0 q IH]; intros a Hq Ha; [discriminate|].
  simpl in Hq. apply orb_false_iff in Hq as [Hq0 Hq].
  apply bool_decide_eq_false in Hq0.
  destruct a as [|x a]; push_append; simpl in *.
  - destruct (decide (q0 = c)); [contradiction|reflexivity].
  - destruct (decide (q0 = x)); [|reflexivity]. by apply IH.
Qed.

Lemma match_cant_resolve_name_spec (name post : string) :
  occurs "'"%char name = false ->
  match_cant_resolve_name (name +:+ String "'"%char post) = Some (name, post).
Proof.
  induction name as [|c name IH]; intros H; push_append; simpl.
  - reflexivity.
  - simpl in H. apply orb_false_iff in H as [Hc Hn].
    rewrite Hc, (IH Hn). reflexivity.
Qed.

Lemma match_cant_resolve_here (name post : string) :
  name ≠ "" -> occurs "'"%char name = false ->
  match_cant_resolve ("Can't resolve '" +:+ name +:+ "'" +:+ post) = Some name.
Proof.
  intros Hne Hq. push_append. cbn [match_cant_resolve].
  change (String "C" (String "a" (String "n" (String "'" (String "t" (String " "
            (String "r" (String "e" (String "s" (String "o" (String "l" (String "v"
            (String "e" (String " " (String "'" (name +:+ String "'" post))))))))))))))))
    with ("Can't resolve '" +:+ (name +:+ String "'"%char post)).
  rewrite startsWith_append.
  replace (JsString.drop 15 ("Can't resolve '" +:+ name +:+ String "'"%char post))
    with (name +:+ String "'"%char post) by reflexivity.
  rewrite (match_cant_resolve_name_spec name post Hq).
  destruct name; [contradiction|reflexivity].
Qed.

Lemma match_cant_resolve_skip (pre rest : string) :
  JsString.includes pre "Can't resolve '" = false ->
  match_cant_resolve (pre +:+ "Can't resolve '" +:+ rest)
  = match_cant_resolve ("Can't resolve '" +:+ rest).
Proof.
  induction pre as [|c pre IH]; intros H; [reflexivity|].
  cbn [JsString.includes] in H. apply orb_false_iff in H as [Hhere Hlater].
  rewrite append_cons. cbn [match_cant_resolve].
  assert (Hno : JsString.startsWith (String c (pre +:+ "Can't resolve '" +:+ rest))
                  "Can't resolve '" = false).
  { change ("Can't resolve '" +:+ rest) with (String "C" ("an't resolve '" +:+ rest)).
    change (JsString.startsWith (String c ?s) "Can't resolve '")
      with (if decide ("C"%char = c) then JsString.startsWith s "an't resolve '" else false)
      in Hhere |- *.
    destruct (decide ("C"%char = c)); [|reflexivity].
    by apply startsWith_no_overlap. }
  rewrite Hno. by apply IH.
Qed.

(** The name captured by the expression is that of the first occurrence of
    the pattern. *)
Lemma match_cant_resolve_first (pre name post : string) :
  JsString.includes pre "Can't resolve '" = false ->
  name ≠ "" -> occurs "'"%char name = false ->
  match_cant_resolve (pre +:+ "Can't resolve '" +:+ name +:+ "'" +:+ post) = Some name.
Proof.
  intros Hpre Hne Hq. rewrite match_cant_resolve_skip by exact Hpre.
  by apply match_cant_resolve_here.
Qed.

Lemma render_failed_hint (args : gmap string jsval) (err : error) (dir : option string) :
  JsString.includes (err_message err) "Module not found" = true ->
  JsString.includes (err_message err) "compositionConfig" = false ->
  match match_cant_resolve (err_message err) with
  | Some name => module_hint name
  | None => dependency_hint
  end ∈ console_lines (trace (render_failed args err dir)).
Proof.
  intros Hm Hc. unfold render_failed, print_hints. rewrite Hc, Hm.
  unfold console_lines.
  destruct (match_cant_resolve (err_message err));
    destruct (truthy (args !! "verbose")); simpl; find_member.
Qed.

(** C7, as amended: when a failure raised after extraction has a message
    containing [Module not found] and not [compositionConfig], the hint
    names the module captured by the first [Can't resolve '...'] of the
    message, and the generic dependency hint is printed when there is no
    such capture. *)
Theorem unresolved_module_is_named
    (w : world) (args : gmap string jsval) (abs outp : string) (cfg : config)
    (err : error) (pre name post : string) :
  out (resolve_paths w None) = Returned (args, abs, outp) ->
  extractCompositionConfig w abs = inr cfg ->
  out (render_pipeline w abs outp cfg None) = Thrown err ->
  JsString.includes (err_message err) "Module not found" = true ->
  JsString.includes (err_message err) "compositionConfig" = false ->
  err_message err = pre +:+ "Can't resolve '" +:+ name +:+ "'" +:+ post ->
  JsString.includes pre "Can't resolve '" = false ->
  name ≠ "" -> occurs "'"%char name = false ->
  module_hint name ∈ console_lines (trace (run w))
  /\ (forall (args' : gmap string jsval) (err' : error) (dir : option string),
        JsString.includes (err_message err') "Module not found" = true ->
        JsString.includes (err_message err') "compositionConfig" = false ->
        match_cant_resolve (err_message err') = None ->
        dependency_hint ∈ console_lines (trace (render_failed args' err' dir))).
Proof.
  intros Hpaths Hcfg Hthrown Hm Hc Hshape Hpre Hne Hq. split.
  - destruct (run_after_extraction w args abs outp cfg Hpaths Hcfg) as (t0 & _ & ->).
    pose proof (render_failed_hint args err) as Hhint.
    rewrite Hshape, (match_cant_resolve_first pre name post Hpre Hne Hq) in Hhint.
    rewrite <- Hshape in Hhint.
    unfold after, try_finally, try_catch.
    destruct (render_pipeline w abs outp cfg None) as [t1 d1 o1].
    simpl in Hthrown. subst o1.
    specialize (Hhint d1 Hm Hc).
    destruct (render_failed_exits args err d1) as (tf & Hf & _).
    rewrite Hf in *. simpl in *.
    unfold console_lines in *. rewrite !omap_app.
    apply elem_of_app. right. apply elem_of_app. right. exact Hhint.
  - intros args' err' dir Hm' Hc' Hnone.
    pose proof (render_failed_hint args' err' dir Hm' Hc') as Hhint.
    by rewrite Hnone in Hhint.
Qed.

Lemma unresolved_module_is_named_witness :
  let w := failing_bundle_world ["--input=demo.tsx"]
             "Module not found: Error: Can't resolve 'foo-bar' in '/tmp/entry'" in
  module_hint "foo-bar" ∈ console_lines (trace (run w))
  /\ dependency_hint
       ∈ console_lines
           (trace (render_failed ∅ (mkError "Error" "Module not found: webpack" "") None)).
Proof.
  intros w.
  destruct (unresolved_module_is_named w (<["input" := JStr "demo.tsx"]> ∅)
              "/home/user/videos/demo.tsx"
              "/home/user/videos/demo_2024-03-09T14-05-07.mp4" sample_config
              (mkError "Error"
                 "Module not found: Error: Can't resolve 'foo-bar' in '/tmp/entry'"
                 "Error: Module not found: Error: Can't resolve 'foo-bar' in '/tmp/entry'")
              "Module not found: Error: " "foo-bar" " in '/tmp/entry'") as [H1 H2].
  - vm_compute. reflexivity.
  - reflexivity.
  - vm_compute. reflexivity.
  - vm_compute. reflexivity.
  - vm_compute. reflexivity.
  - reflexivity.
  - vm_compute. reflexivity.
  - discriminate.
  - vm_compute. reflexivity.
  - split; [exact H1|].
    apply H2; vm_compute; reflexivity.
Defined.

(** C7, the claim as stated: a failure whose message has the shape
    [Can't resolve 'foo-bar'] without the words [Module not found] gets
    neither the hint naming the module nor the generic one. *)
Lemma unresolved_module_without_marker_gets_no_hint :
  let w := failing_bundle_world ["--input=demo.tsx"] "Can't resolve 'foo-bar'" in
  out (run w) = Exited 1
  /\ console_lines (trace (run w)) = [""; ""]
  /\ (module_hint "foo-bar" ∉ console_lines (trace (run w)))
  /\ (dependency_hint ∉ console_lines (trace (run w))).
Proof.
  vm_compute. repeat split; try reflexivity.
  - intros H. apply list_elem_of_In in H. simpl in H.
    destruct H as [H|[H|[]]]; discriminate.
  - intros H. apply list_elem_of_In in H. simpl in H.
    destruct H as [H|[H|[]]]; discriminate.
Qed.

(** ** Output path *)

Lemma chars_append (a b : string) :
  Path.chars (a +:+ b) = (Path.chars a ++ Path.chars b)%list.
Proof. induction a as [|c a IH]; push_append; simpl; [reflexivity|by rewrite IH]. Qed.

Lemma length_chars (a : string) : length (Path.chars a) = String.length a.
Proof. induction a as [|c a IH]; simpl; [reflexivity|by rewrite IH]. Qed.

Lemma occurs_append (c : ascii) (a b : string) :
  occurs c (a +:+ b) = occurs c a || occurs c b.
Proof.
  induction a as [|x a IH]; push_append; simpl; [reflexivity|].
  rewrite IH. apply orb_assoc.
Qed.

Lemma chars_no_slash (s : string) :
  occurs "/"%char s = false -> Forall (fun c => Path.is_slash c = false) (Path.chars s).
Proof.
  induction s as [|c s IH]; simpl; intros H; [constructor|].
  apply orb_false_iff in H as [Hc Hs]. constructor; [exact Hc|by apply IH].
Qed.

Lemma digit_cases (n : Z) :
  digit n = "0"%char \/ digit n = "1"%char \/ digit n = "2"%char \/ digit n = "3"%char
  \/ digit n = "4"%char \/ digit n = "5"%char \/ digit n = "6"%char \/ digit n = "7"%char
  \/ digit n = "8"%char \/ digit n = "9"%char.
Proof.
  unfold digit. pose proof (Z.mod_pos_bound n 10 eq_refl) as Hb.
  assert (H : n mod 10 = 0 \/ n mod 10 = 1 \/ n mod 10 = 2 \/ n mod 10 = 3
              \/ n mod 10 = 4 \/ n mod 10 = 5 \/ n mod 10 = 6 \/ n mod 10 = 7
              \/ n mod 10 = 8 \/ n mod 10 = 9) by lia.
  repeat destruct H as [H|H]; rewrite H; simpl; auto 10.
Qed.

Lemma digit_kept (n : Z) :
  bool_decide (digit n = ":"%char) || bool_decide (digit n = "."%char) = false.
Proof.
  pose proof (digit_cases n) as H.
  repeat destruct H as [H|H]; rewrite H; reflexivity.
Qed.

Lemma digit_no_slash (n : Z) : bool_decide (digit n = "/"%char) = false.
Proof.
  pose proof (digit_cases n) as H.
  repeat destruct H as [H|H]; rewrite H; reflexivity.
Qed.

(** For a four-digit year the timestamp is the time to the second. *)
Lemma timestamp_to_the_second (now : Date) :
  0 <= utc_year now <= 9999 -> timestamp now = second_stamp now.
Proof.
  intros Hy. unfold timestamp, toISOString, iso_year, second_stamp.
  assert (E : (0 <=? utc_year now) && (utc_year now <=? 9999) = true).
  { apply andb_true_iff. split; apply Z.leb_le; lia. }
  rewrite E. unfold pad4, pad3, pad2. cbn [replace_colon_period].
  rewrite !digit_kept. reflexivity.
Qed.

Lemma second_stamp_no_slash (now : Date) : occurs "/"%char (second_stamp now) = false.
Proof.
  unfold second_stamp, pad4, pad3, pad2. cbn [occurs].
  rewrite !digit_no_slash. reflexivity.
Qed.

Lemma second_stamp_length (now : Date) : String.length (second_stamp now) = 19%nat.
Proof. reflexivity. Qed.

(** *** [dirname] *)

Lemma dirname_scan_plain (r : list ascii) (m : bool) :
  Forall (fun c => Path.is_slash c = false) r -> Path.dirname_scan r m = None.
Proof.
  intros H. revert m. induction H as [|c r Hc _ IH]; intros m; simpl; [reflexivity|].
  rewrite Hc. apply IH.
Qed.

Lemma dirname_scan_component (r1 r2 : list ascii) (m : bool) :
  Forall (fun c => Path.is_slash c = false) r1 ->
  r1 ≠ [] \/ m = false ->
  Path.dirname_scan (r1 ++ "/"%char :: r2) m = Some (S (length r2)).
Proof.
  intros H. revert m. induction H as [|c r Hc _ IH]; intros m Hm.
  - destruct Hm as [Hm| ->]; [contradiction|]. reflexivity.
  - simpl. rewrite Hc. apply IH. by right.
Qed.

Lemma absolute_path_cons (seg : string) (segs : list string) :
  absolute_path (seg :: segs) = String "/" (seg +:+ absolute_path segs).
Proof. reflexivity. Qed.

Lemma chars_nonempty (s : string) : s ≠ "" -> Path.chars s ≠ [].
Proof. destruct s; [contradiction|discriminate]. Qed.

Lemma rev_nonempty {A} (l : list A) : l ≠ [] -> rev l ≠ [].
Proof.
  destruct l as [|x l]; [contradiction|]. intros _ H.
  apply (f_equal (@length A)) in H. rewrite length_rev in H. discriminate.
Qed.

(** The directory of a file that sits in a directory given by its
    components: the directory itself, or the root. *)
Lemma dirname_of_file (segs : list string) (file : string) :
  Forall (fun s => plain_segment s = true) segs ->
  file ≠ "" -> occurs "/"%char file = false ->
  Path.dirname (absolute_path segs +:+ "/" +:+ file)
  = match segs with [] => "/" | _ => absolute_path segs end.
Proof.
  intros Hsegs Hne Hfile.
  pose proof (Forall_rev (chars_no_slash file Hfile)) as Hrev.
  destruct segs as [|seg segs].
  - simpl absolute_path. push_append. unfold Path.dirname.
    rewrite dirname_scan_plain by exact Hrev. reflexivity.
  - rewrite absolute_path_cons. set (D := seg +:+ absolute_path segs).
    push_append. unfold Path.dirname.
    rewrite chars_append. change (Path.chars (String "/" file)) with ("/"%char :: Path.chars file).
    rewrite rev_app_distr. simpl rev. rewrite <- app_assoc. simpl app.
    rewrite dirname_scan_component;
      [|exact Hrev|left; by apply rev_nonempty, chars_nonempty].
    rewrite length_rev, length_chars.
    assert (Hlen : String.length D ≠ 0%nat).
    { unfold D. rewrite length_append.
      apply Forall_inv in Hsegs. unfold plain_segment in Hsegs.
      destruct seg; [discriminate|simpl; lia]. }
    rewrite bool_decide_eq_false_2 by lia. simpl andb. cbv iota.
    change (JsString.take (S (String.length D)) (String "/" (D +:+ String "/" file)))
      with (String "/" (JsString.take (String.length D) (D +:+ String "/" file))).
    by rewrite take_append.
Qed.

(** *** [basename] *)

Lemma basename_scan_plain (r1 r2 : list ascii) (st : Path.basename_state) :
  Forall (fun c => Path.is_slash c = false) r1 ->
  Path.b_ext st = [] -> Path.b_firstNonSlashEnd st ≠ -1 ->
  Path.basename_scan (r1 ++ r2) st = Path.basename_scan r2 st.
Proof.
  intros H Hext Hfirst. induction H as [|c r Hc _ IH]; [reflexivity|].
  simpl. rewrite Hc.
  apply Z.eqb_neq in Hfirst. rewrite Hfirst, Hext. exact IH.
Qed.

Lemma basename_scan_char (c : ascii) (r : list ascii) (s e : Z) (m : bool)
    (ext : list ascii) (f : Z) :
  Path.is_slash c = false ->
  Path.basename_scan (c :: r) (Path.mkBasename s e m ext f)
  = Path.basename_scan r
      (let i := Z.of_nat (length r) in
       let m1 := if f =? -1 then false else m in
       let f1 := if f =? -1 then i + 1 else f in
       match ext with
       | [] => Path.mkBasename s e m1 [] f1
       | x :: ext' =>
           if bool_decide (c = x) then
             match ext' with
             | [] => Path.mkBasename s i m1 [] f1
             | _ => Path.mkBasename s e m1 ext' f1
             end
           else Path.mkBasename s f1 m1 [] f1
       end).
Proof.
  intros H. simpl. rewrite H.
  destruct (f =? -1); destruct ext as [|x [|y ext']]; simpl; try reflexivity;
    destruct (bool_decide (c = x)); reflexivity.
Qed.

Lemma basename_scan_suffix (r : list ascii) :
  Path.basename_scan ("x"%char :: "s"%char :: "t"%char :: "."%char :: r)
    (Path.mkBasename 0 (-1) true ["x"%char; "s"%char; "t"%char; "."%char] (-1))
  = Path.basename_scan r
      (Path.mkBasename 0 (Z.of_nat (length r)) false [] (Z.of_nat (length r) + 4)).
Proof.
  assert (Hf : forall n : nat, (Z.of_nat n + 1 =? -1) = false)
    by (intros n; apply Z.eqb_neq; lia).
  rewrite basename_scan_char by reflexivity. cbv zeta.
  change (-1 =? -1) with true. cbv iota.
  rewrite bool_decide_eq_true_2 by reflexivity.
  rewrite basename_scan_char by reflexivity. cbv zeta.
  rewrite Hf. rewrite bool_decide_eq_true_2 by reflexivity.
  rewrite basename_scan_char by reflexivity. cbv zeta.
  rewrite Hf. rewrite bool_decide_eq_true_2 by reflexivity.
  rewrite basename_scan_char by reflexivity. cbv zeta.
  rewrite Hf. rewrite bool_decide_eq_true_2 by reflexivity.
  f_equal. f_equal. simpl length. lia.
Qed.

(** The base name of a [.tsx] file, whatever the directory. *)
Lemma basename_of_file (dir name : string) :
  name ≠ "" -> occurs "/"%char name = false ->
  Path.basename (dir +:+ "/" +:+ name +:+ ".tsx") ".tsx" = name.
Proof.
  intros Hne Hname.
  assert (Hlen : String.length (dir +:+ "/" +:+ name +:+ ".tsx")
                 = (String.length dir + 1 + String.length name + 4)%nat).
  { rewrite !length_append. simpl. lia. }
  assert (Hdiff : ".tsx" ≠ dir +:+ "/" +:+ name +:+ ".tsx").
  { intros E. apply (f_equal (occurs "/"%char)) in E.
    rewrite !occurs_append in E. simpl in E.
    rewrite orb_true_r in E. discriminate. }
  assert (Hrev : rev (Path.chars (dir +:+ "/" +:+ name +:+ ".tsx"))
                 = ("x"%char :: "s"%char :: "t"%char :: "."%char ::
                    rev (Path.chars name) ++ "/"%char :: rev (Path.chars dir))%list).
  { rewrite !chars_append, !rev_app_distr. simpl. by rewrite <- !app_assoc. }
  unfold Path.basename.
  rewrite (bool_decide_eq_false_2 _ Hdiff), Hrev, Hlen.
  replace (negb (bool_decide (".tsx" = "")) &&
           (Z.of_nat (String.length ".tsx")
            <=? Z.of_nat (String.length dir + 1 + String.length name + 4)))
    with true by (symmetry; apply andb_true_iff; split;
                  [reflexivity|apply Z.leb_le; simpl; lia]).
  change (rev (Path.chars ".tsx")) with ["x"%char; "s"%char; "t"%char; "."%char].
  rewrite basename_scan_suffix.
  rewrite basename_scan_plain;
    [|apply Forall_rev, chars_no_slash, Hname|reflexivity|simpl; lia].
  simpl Path.basename_scan. cbn [Path.b_start Path.b_end Path.b_firstNonSlashEnd].
  rewrite !length_app, !length_rev, !length_chars. simpl length.
  assert (Hn : String.length name ≠ 0%nat) by (destruct name; [contradiction|discriminate]).
  rewrite ?length_rev, ?length_chars.
  rewrite (proj2 (Z.eqb_neq _ _)) by lia.
  rewrite (proj2 (Z.eqb_neq _ (-1))) by lia.
  unfold JsString.slice.
  replace (Z.to_nat (Z.of_nat (String.length name + S (String.length dir))
                     - (Z.of_nat (String.length dir) + 1)))
    with (String.length name) by lia.
  replace (Z.to_nat (Z.of_nat (String.length dir) + 1)) with (S (String.length dir)) by lia.
  change ("/" +:+ name +:+ ".tsx") with (String "/" (name +:+ ".tsx")).
  by rewrite drop_append_cons, take_append.
Qed.

(** *** [normalize] and [join] *)

Lemma split_plain (s : string) : occurs "/"%char s = false -> Path.split s = [s].
Proof.
  induction s as [|c s IH]; simpl; intros H; [reflexivity|].
  apply orb_false_iff in H as [Hc Hs].
  unfold Path.is_slash. rewrite Hc, (IH Hs). reflexivity.
Qed.

Lemma split_component (s rest : string) :
  occurs "/"%char s = false ->
  Path.split (s +:+ String "/" rest) = s :: Path.split rest.
Proof.
  induction s as [|c s IH]; push_append; simpl; intros H; [reflexivity|].
  apply orb_false_iff in H as [Hc Hs].
  unfold Path.is_slash in *. rewrite Hc, (IH Hs). reflexivity.
Qed.

Lemma plain_segment_no_slash (s : string) :
  plain_segment s = true -> occurs "/"%char s = false.
Proof.
  unfold plain_segment. intros H.
  apply andb_true_iff in H as [_ H]. by apply negb_true_iff in H.
Qed.

Lemma split_absolute (segs : list string) (rest : string) :
  Forall (fun s => plain_segment s = true) segs ->
  Path.split (absolute_path segs +:+ String "/" rest) = (("" :: segs) ++ Path.split rest)%list.
Proof.
  induction 1 as [|seg segs Hseg _ IH]; [reflexivity|].
  rewrite absolute_path_cons. push_append.
  change (Path.split (String "/" ?s)) with ("" :: Path.split s).
  rewrite append_assoc.
  destruct segs as [|seg' segs].
  - simpl absolute_path. push_append.
    by rewrite (split_component seg rest (plain_segment_no_slash _ Hseg)).
  - rewrite absolute_path_cons in *. push_append. rewrite ?append_cons, ?append_nil_l in IH.
    rewrite (split_component seg _ (plain_segment_no_slash _ Hseg)).
    change (Path.split (String "/" ?s)) with ("" :: Path.split s) in IH.
    simpl in IH. injection IH as IH. simpl. by rewrite IH.
Qed.

Lemma normalize_step_plain (b : bool) (res : list string) (seg : string) :
  plain_segment seg = true -> Path.normalize_step b res seg = seg :: res.
Proof.
  unfold plain_segment, Path.normalize_step. intros H.
  apply andb_true_iff in H as [H _].
  apply andb_true_iff in H as [H H3].
  apply andb_true_iff in H as [H1 H2].
  apply negb_true_iff in H1, H2, H3. by rewrite H1, H2, H3.
Qed.

Lemma normalize_fold_plain (b : bool) (segs res : list string) :
  Forall (fun s => plain_segment s = true) segs ->
  fold_left (Path.normalize_step b) segs res = (rev segs ++ res)%list.
Proof.
  intros H. revert res. induction H as [|seg segs Hseg _ IH]; intros res; [reflexivity|].
  simpl. rewrite (normalize_step_plain b res seg Hseg), IH.
  by rewrite <- app_assoc.
Qed.

Lemma join_segments_cons (seg : string) (rest : list string) :
  rest ≠ [] -> Path.join_segments (seg :: rest) = seg +:+ "/" +:+ Path.join_segments rest.
Proof. destruct rest; [contradiction|reflexivity]. Qed.

Lemma join_segments_absolute (segs : list string) (file : string) :
  "/" +:+ Path.join_segments (segs ++ [file]) = absolute_path segs +:+ "/" +:+ file.
Proof.
  induction segs as [|seg segs IH]; [reflexivity|].
  rewrite <- app_comm_cons, join_segments_cons by (by destruct segs).
  rewrite absolute_path_cons. push_append. rewrite append_assoc.
  rewrite ?append_cons, ?append_nil_l in IH. by rewrite IH.
Qed.

Lemma has_trailing_separator_plain (dir file : string) :
  file ≠ "" -> occurs "/"%char file = false ->
  Path.has_trailing_separator (dir +:+ file) = false.
Proof.
  intros Hne Hfile. unfold Path.has_trailing_separator.
  rewrite chars_append, rev_app_distr.
  pose proof (Forall_rev (chars_no_slash file Hfile)) as H.
  pose proof (rev_nonempty _ (chars_nonempty file Hne)) as Hr.
  destruct (rev (Path.chars file)) as [|c r]; [contradiction|].
  simpl. by apply Forall_inv in H.
Qed.

(** Normalising a directory given by its components followed by a plain
    file name changes nothing; a doubled separator after the root is
    collapsed. *)
Lemma normalize_absolute (segs : list string) (double : bool) (file : string) :
  Forall (fun s => plain_segment s = true) segs ->
  plain_segment file = true ->
  (double = true -> segs = []) ->
  Path.normalize (absolute_path segs +:+ (if double then "//" else "/") +:+ file)
  = absolute_path segs +:+ "/" +:+ file.
Proof.
  intros Hsegs Hfile Hdouble.
  pose proof (plain_segment_no_slash _ Hfile) as Hns.
  assert (Hne : file ≠ "").
  { intros ->. discriminate. }
  assert (Habs : exists rest,
             absolute_path segs +:+ (if double then "//" else "/") +:+ file
             = String "/" rest).
  { destruct segs; [|rewrite absolute_path_cons; push_append; eauto].
    destruct double; simpl absolute_path; push_append; eauto. }
  destruct Habs as (rest & Habs).
  assert (Hnorm : Path.normalizeString
                    (absolute_path segs +:+ (if double then "//" else "/") +:+ file) false
                  = Path.join_segments (segs ++ [file])).
  { unfold Path.normalizeString. destruct double.
    - rewrite (Hdouble eq_refl). simpl absolute_path. push_append.
      change (Path.split (String "/" (String "/" file)))
        with ("" :: "" :: Path.split file).
      rewrite split_plain by exact Hns. simpl fold_left.
      change (Path.normalize_step false [] "") with (@nil string).
      by rewrite (normalize_step_plain _ _ _ Hfile).
    - change ("/" +:+ file) with (String "/" file).
      rewrite split_absolute, split_plain by assumption.
      rewrite <- app_comm_cons. simpl fold_left.
      change (Path.normalize_step false [] "") with (@nil string).
      rewrite fold_left_app, (normalize_fold_plain false segs [] Hsegs).
      rewrite app_nil_r. simpl fold_left.
      rewrite (normalize_step_plain _ _ _ Hfile). simpl rev.
      by rewrite rev_involutive. }
  assert (Hia : Path.isAbsolute
                  (absolute_path segs +:+ (if double then "//" else "/") +:+ file) = true)
    by (rewrite Habs; reflexivity).
  assert (Hnonempty : absolute_path segs +:+ (if double then "//" else "/") +:+ file ≠ "")
    by (rewrite Habs; discriminate).
  unfold Path.normalize.
  rewrite Hia, (bool_decide_eq_false_2 _ Hnonempty). simpl negb. rewrite Hnorm.
  rewrite <- append_assoc, has_trailing_separator_plain by assumption.
  assert (Hp : Path.join_segments (segs ++ [file]) ≠ "").
  { destruct segs as [|seg segs]; [exact Hne|].
    rewrite <- app_comm_cons, join_segments_cons by (by destruct segs).
    apply Forall_inv in Hsegs. destruct seg; discriminate. }
  rewrite bool_decide_eq_false_2 by exact Hp.
  apply join_segments_absolute.
Qed.

Lemma long_segment_plain (s : string) :
  (3 <= String.length s)%nat -> occurs "/"%char s = false -> plain_segment s = true.
Proof.
  intros Hlen Hs. unfold plain_segment. rewrite Hs.
  rewrite !bool_decide_eq_false_2; [reflexivity| | |]; intros ->; simpl in Hlen; lia.
Qed.

Lemma join_directory_file (segs : list string) (file : string) :
  Forall (fun s => plain_segment s = true) segs ->
  plain_segment file = true ->
  Path.join [match segs with [] => "/" | _ => absolute_path segs end; file]
  = absolute_path segs +:+ "/" +:+ file.
Proof.
  intros Hsegs Hfile.
  assert (Hne : file ≠ "") by (intros ->; discriminate).
  unfold Path.join. destruct segs as [|seg segs].
  - rewrite filter_cons_True by discriminate.
    rewrite filter_cons_True by exact Hne.
    apply (normalize_absolute [] true file); auto.
  - rewrite filter_cons_True by (rewrite absolute_path_cons; discriminate).
    rewrite filter_cons_True by exact Hne.
    change (filter _ []) with (@nil string). cbn [Path.join_segments].
    apply (normalize_absolute (seg :: segs) false file); auto. discriminate.
Qed.

(** C4: for an input [<dir>/<name>.tsx] and no usable [--output], the output
    path is [<dir>/<name>_<timestamp>.mp4], the timestamp being the UTC time
    in the ISO layout cut after the seconds, with hyphens in place of the
    colons: [YYYY-MM-DDTHH-mm-ss]. *)
Theorem default_output_path
    (w : world) (args : gmap string jsval) (segs : list string) (name : string) :
  Forall (fun s => plain_segment s = true) segs ->
  name ≠ "" -> occurs "/"%char name = false ->
  0 <= utc_year (now w) <= 9999 ->
  truthy (args !! "output") = false ->
  generateOutputPath (now w) (absolute_path segs +:+ "/" +:+ name +:+ ".tsx")
    = absolute_path segs +:+ "/" +:+ name +:+ "_" +:+ second_stamp (now w) +:+ ".mp4"
  /\ timestamp (now w) = second_stamp (now w)
  /\ choose_outputPath w args (absolute_path segs +:+ "/" +:+ name +:+ ".tsx") None
     = mkResult [] None
         (Returned (absolute_path segs +:+ "/" +:+ name +:+ "_"
                    +:+ second_stamp (now w) +:+ ".mp4")).
Proof.
  intros Hsegs Hne Hname Hyear Hout.
  assert (Hgen : generateOutputPath (now w) (absolute_path segs +:+ "/" +:+ name +:+ ".tsx")
                 = absolute_path segs +:+ "/" +:+ name +:+ "_"
                   +:+ second_stamp (now w) +:+ ".mp4").
  { unfold generateOutputPath.
    rewrite (dirname_of_file segs (name +:+ ".tsx")); [|exact Hsegs| |].
    - rewrite basename_of_file by assumption.
      rewrite (timestamp_to_the_second _ Hyear).
      apply join_directory_file; [exact Hsegs|].
      apply long_segment_plain.
      + rewrite !length_append, second_stamp_length. simpl. lia.
      + rewrite !occurs_append, Hname, second_stamp_no_slash. reflexivity.
    - destruct name; [contradiction|discriminate].
    - rewrite occurs_append, Hname. reflexivity. }
  split; [exact Hgen|]. split; [by apply timestamp_to_the_second|].
  unfold choose_outputPath. rewrite Hout, Hgen. reflexivity.
Qed.

Lemma default_output_path_witness :
  let w := sample_world ["demo.tsx"] sample_config [] [] in
  generateOutputPath (now w) "/home/user/videos/demo.tsx"
    = "/home/user/videos/demo_2024-03-09T14-05-07.mp4"
  /\ timestamp (now w) = "2024-03-09T14-05-07"
  /\ choose_outputPath w (<["_positional" := JArr ["demo.tsx"]]> ∅)
       "/home/user/videos/demo.tsx" None
     = mkResult [] None (Returned "/home/user/videos/demo_2024-03-09T14-05-07.mp4").
Proof.
  intros w.
  apply (default_output_path w (<["_positional" := JArr ["demo.tsx"]]> ∅)
           ["home"; "user"; "videos"] "demo").
  - repeat constructor.
  - discriminate.
  - reflexivity.
  - simpl. lia.
  - reflexivity.
Defined.

(** *** The paths [main] passes on *)

Lemma split_no_slash (s : string) :
  Forall (fun seg => occurs "/"%char seg = false) (Path.split s).
Proof.
  induction s as [|c s IH]; simpl.
  - repeat constructor.
  - unfold Path.is_slash. destruct (bool_decide (c = "/"%char)) eqn:Hc.
    + constructor; [reflexivity|exact IH].
    + destruct (Path.split s) as [|seg segs].
      * constructor; [simpl; by rewrite Hc|constructor].
      * inversion IH as [|? ? Hseg Hsegs]; subst.
        constructor; [simpl; by rewrite Hc, Hseg|exact Hsegs].
Qed.

Lemma normalize_step_keeps_plain (res : list string) (seg : string) :
  occurs "/"%char seg = false ->
  Forall (fun s => plain_segment s = true) res ->
  Forall (fun s => plain_segment s = true) (Path.normalize_step false res seg).
Proof.
  intros Hseg Hres. unfold Path.normalize_step.
  destruct (bool_decide (seg = "")) eqn:E1; [exact Hres|].
  destruct (bool_decide (seg = ".")) eqn:E2; [exact Hres|]. simpl.
  destruct (bool_decide (seg = "..")) eqn:E3.
  - destruct res as [|top below]; [constructor|].
    destruct (bool_decide (top = "..")); [exact Hres|].
    by inversion Hres.
  - constructor; [|exact Hres]. unfold plain_segment. by rewrite E1, E2, E3, Hseg.
Qed.

Lemma normalize_fold_keeps_plain (segs res : list string) :
  Forall (fun seg => occurs "/"%char seg = false) segs ->
  Forall (fun s => plain_segment s = true) res ->
  Forall (fun s => plain_segment s = true) (fold_left (Path.normalize_step false) segs res).
Proof.
  intros H. revert res. induction H as [|seg segs Hseg _ IH]; intros res Hres; [exact Hres|].
  simpl. apply IH. by apply normalize_step_keeps_plain.
Qed.

Lemma join_segments_rooted (segs : list string) :
  segs ≠ [] -> "/" +:+ Path.join_segments segs = absolute_path segs.
Proof.
  induction segs as [|seg segs IH]; [contradiction|]. intros _.
  destruct segs as [|seg' segs].
  - simpl. by rewrite append_nil_r.
  - rewrite join_segments_cons by discriminate.
    rewrite absolute_path_cons. push_append.
    rewrite ?append_cons, ?append_nil_l in IH. by rewrite IH.
Qed.

(** Against an absolute working directory, [path.resolve] returns the root
    or a path made of plain components. *)
Lemma resolve_plain (cwd p : string) :
  Path.isAbsolute cwd = true ->
  exists segs,
    Forall (fun s => plain_segment s = true) segs
    /\ Path.resolve cwd [p] = match segs with [] => "/" | _ => absolute_path segs end.
Proof.
  intros Hcwd.
  assert (Hnorm : forall s, exists segs,
             Forall (fun s => plain_segment s = true) segs
             /\ "/" +:+ Path.normalizeString s false
                = match segs with [] => "/" | _ => absolute_path segs end).
  { intros s. unfold Path.normalizeString.
    pose proof (normalize_fold_keeps_plain (Path.split s) [] (split_no_slash s)
                  (List.Forall_nil _)) as Hplain.
    apply Forall_rev in Hplain.
    exists (rev (fold_left (Path.normalize_step false) (Path.split s) [])).
    split; [exact Hplain|].
    destruct (rev _) as [|seg segs] eqn:E; [reflexivity|].
    by apply join_segments_rooted. }
  assert (Hne : cwd ≠ "") by (intros ->; discriminate).
  unfold Path.resolve. simpl rev. simpl Path.resolve_loop.
  destruct (bool_decide (p = "")).
  - rewrite (bool_decide_eq_false_2 _ Hne), Hcwd. apply Hnorm.
  - destruct (Path.isAbsolute p); [apply Hnorm|].
    rewrite (bool_decide_eq_false_2 _ Hne), Hcwd. apply Hnorm.
Qed.


(** * Further properties of the script *)

(** ** The [catch] block, line by line *)

Lemma print_hints_lines (message : string) (dir : option string) :
  print_hints message dir = mkResult (map log_line (hint_lines message)) dir (Returned tt).
Proof.
  unfold print_hints, hint_lines.
  destruct (JsString.includes message "compositionConfig"); [reflexivity|].
  destruct (JsString.includes message "Module not found").
  - destruct (match_cant_resolve message); reflexivity.
  - destruct (JsString.includes message "ENOENT"); reflexivity.
Qed.

Lemma render_failed_lines (args : gmap string jsval) (err : error) (dir : option string) :
  render_failed args err dir
  = mkResult
      (EClearProgress :: EError ("Render failed: " +:+ err_message err)
         :: map log_line (hint_lines (err_message err) ++ stack_lines args err))
      dir (Exited 1).
Proof.
  unfold render_failed, stack_lines. simpl. rewrite print_hints_lines.
  destruct (truthy (args !! "verbose")); simpl; rewrite map_app; simpl;
    rewrite ?app_nil_r; reflexivity.
Qed.

Lemma console_lines_log (l : list string) : console_lines (map log_line l) = l.
Proof. induction l as [|x l IH]; simpl; [reflexivity|]. unfold console_lines in *. simpl. by rewrite IH. Qed.

(** Symbolic execution with the lines of the [catch] block kept. *)
Ltac split_lines :=
  match goal with
  | |- context [for_each ?l _ ?d] => rewrite (for_each_emit_run l _ d)
  | |- context [render_failed ?a (Raised ?e) ?d] => rewrite (render_failed_lines a e d)
  | |- context [render_failed ?a (RaisedOther ?x) ?d] => unfold render_failed
  | |- context [render_failed ?a RaisedNullish ?d] => unfold render_failed
  | |- context [render_failed ?a ?e ?d] => is_var e; destruct e
  | |- context [truthy ?y] =>
      lazymatch y with
      | Some _ => fail
      | None => fail
      | _ => destruct y as [[|[|? ?]|?]|] eqn:?
      end
  | |- context [match ?x with _ => _ end] =>
      lazymatch x with
      | context [match _ with _ => _ end] => fail
      | _ => destruct x eqn:?
      end
  end; simpl.

Ltac read_events :=
  unfold calls, select_calls, error_lines, success_lines, cleanup_calls, staging_calls,
    bundle_calls, render_calls, progress_lines in *;
  repeat (simpl;
          rewrite ?omap_app;
          rewrite ?omap_map_none by (intros; reflexivity)).

(** The same symbolic execution with the output path left as it comes. *)
Ltac split_phases := first [split_output | split_lines].

(** ** The order of the phases *)


(** ** Runs that stop early *)

(** A file the validator rejects stops the run at once: the validator's
    message is the only error line, nothing else is printed on the console,
    no other collaborator is called, and the status is 1. *)
Theorem validation_failure_stops_run
    (w : world) (args : gmap string jsval) (p : string) (err : error) :
  parseArgs (argv w) = inr args ->
  inputPath_of args = Some (JStr p) -> p ≠ "" ->
  validateTsxFile w (Path.resolve (cwd w) [p]) = Some err ->
  out (run w) = Exited 1
  /\ error_lines (trace (run w)) = [err_message err]
  /\ calls (trace (run w)) = [CValidate]
  /\ console_lines (trace (run w)) = []
  /\ tempProjectDir (run w) = None.
Proof.
  intros Hargs Hinput Hp Hval. unfold_run. simpl.
  rewrite Hargs. simpl. rewrite Hinput.
  destruct p as [|c p]; [contradiction|]. simpl. rewrite Hval. simpl.
  repeat split; reflexivity.
Qed.

Lemma validation_failure_stops_run_witness :
  let w0 := sample_world ["notes.txt"] sample_config [] [] in
  let w := mkWorld (argv w0) (cwd w0) (script_dirname w0) (now w0)
             (fun _ => Some (mkError "Error" "File must be a .tsx file" ""))
             (extractCompositionConfig w0) (browser_download w0) (ensureBrowser w0)
             (createTempProject w0) (webpack_base w0) (bundle w0)
             (selectComposition w0) (renderMedia w0) in
  out (run w) = Exited 1
  /\ error_lines (trace (run w)) = ["File must be a .tsx file"]
  /\ calls (trace (run w)) = [CValidate]
  /\ console_lines (trace (run w)) = []
  /\ tempProjectDir (run w) = None.
Proof.
  intros w0 w.
  apply (validation_failure_stops_run w (<["_positional" := JArr ["notes.txt"]]> ∅)
           "notes.txt" (mkError "Error" "File must be a .tsx file" "")).
  - vm_compute. reflexivity.
  - vm_compute. reflexivity.
  - discriminate.
  - reflexivity.
Defined.

(** What a start that succeeds has printed and called. *)
Lemma resolve_paths_returned (w : world) (x : gmap string jsval * string * string) :
  out (resolve_paths w None) = Returned x ->
  calls (trace (resolve_paths w None)) = [CValidate]
  /\ error_lines (trace (resolve_paths w None)) = []
  /\ success_lines (trace (resolve_paths w None)) = []
  /\ console_lines (trace (resolve_paths w None)) = [""].
Proof.
  unfold resolve_paths, choose_outputPath. simpl.
  repeat split_lines; intros H; try discriminate; repeat split; reflexivity.
Qed.

(** An extractor that throws, whatever the error, ends the run after the
    validator and the extractor have been called: the message is reported
    under [Failed to extract composition config], the sample configuration
    is shown, and the status is 1. *)
Theorem extraction_failure_stops_run
    (w : world) (args : gmap string jsval) (abs outp : string) (err : error) :
  out (resolve_paths w None) = Returned (args, abs, outp) ->
  extractCompositionConfig w abs = inl err ->
  out (run w) = Exited 1
  /\ error_lines (trace (run w))
     = ["Failed to extract composition config: " +:+ err_message err]
  /\ calls (trace (run w)) = [CValidate; CExtract]
  /\ console_lines (trace (run w))
     = [""; "";
        "  Hint: Ensure your TSX file exports a compositionConfig object:"; "";
        "    export const compositionConfig = {"; "      id: 'MyVideo',";
        "      durationInSeconds: 5,"; "      fps: 30,"; "      width: 1080,";
        "      height: 1920,"; "    };"; ""]
  /\ success_lines (trace (run w)) = [].
Proof.
  intros Hpaths Hext.
  destruct (resolve_paths_returned w _ Hpaths) as (Hc & He & Hs & Hl).
  rewrite (run_after_paths w args abs outp Hpaths).
  unfold after, extract_config, extraction_failed.
  cbn [bind emit try_catch of_sum throw console_log process_exit trace out tempProjectDir].
  rewrite Hext.
  cbn [bind emit try_catch of_sum throw console_log process_exit trace out tempProjectDir].
  unfold calls, error_lines, success_lines, console_lines in *.
  rewrite !omap_app, Hc, He, Hs, Hl. simpl. repeat split; reflexivity.
Qed.

Lemma extraction_failure_stops_run_witness :
  let w := source_world ["--input=demo.tsx"] ∅ in
  out (run w) = Exited 1
  /\ error_lines (trace (run w))
     = ["Failed to extract composition config: "
        +:+ err_message (ConfigExtractionError "id")]
  /\ calls (trace (run w)) = [CValidate; CExtract]
  /\ console_lines (trace (run w))
     = [""; "";
        "  Hint: Ensure your TSX file exports a compositionConfig object:"; "";
        "    export const compositionConfig = {"; "      id: 'MyVideo',";
        "      durationInSeconds: 5,"; "      fps: 30,"; "      width: 1080,";
        "      height: 1920,"; "    };"; ""]
  /\ success_lines (trace (run w)) = [].
Proof.
  intros w.
  apply (extraction_failure_stops_run w (<["input" := JStr "demo.tsx"]> ∅)
           "/home/user/videos/demo.tsx"
           "/home/user/videos/demo_2024-03-09T14-05-07.mp4").
  - vm_compute. reflexivity.
  - reflexivity.
Defined.

(** ** What each phase is handed *)

(** The data handed from phase to phase: whenever [renderMedia] is called,
    the staging directory came from [createTempProject], the bundler was
    given [src/index.ts] inside it, [selectComposition] was called once, with
    the bundle location and the id of the descriptor, and the renderer gets
    that same bundle location, the codec [h264], and the id and the further
    fields of the composition that was selected. *)
Theorem phases_pass_results_on (w : world) (opts : render_options) :
  opts ∈ render_calls (trace (run w)) ->
  exists abs cfg dir url comp,
    extractCompositionConfig w abs = inr cfg
    /\ createTempProject w abs cfg = inr dir
    /\ snd (bundle w (Path.join [dir; "src"; "index.ts"])
              (webpackOverride (Path.resolve (cwd w) [script_dirname w; "node_modules"])
                 (webpack_base w)))
       = inr url
    /\ selectComposition w url (id cfg) = inr comp
    /\ select_calls (trace (run w)) = [(url, id cfg)]
    /\ r_serveUrl opts = url
    /\ r_codec opts = "h264"
    /\ comp_id (r_composition opts) = comp_id comp
    /\ comp_other (r_composition opts) = comp_other comp
    /\ tempProjectDir (run w) = Some dir.
Proof.
  unfold_run. simpl. repeat split_lines; read_events; intros Hin;
    try (apply elem_of_nil in Hin; contradiction).
  all: apply list_elem_of_singleton in Hin; subst opts; simpl.
  all: eexists _, _, _, _, _.
  all: split; [eassumption|]; split; [eassumption|]; split; [eassumption|].
  all: split; [eassumption|]; repeat split; reflexivity.
Qed.

Lemma phases_pass_results_on_witness :
  let w := sample_world ["--input=demo.tsx"] sample_config [] [] in
  let opts :=
    mkRender
      (mkComposition "X" (number_of_Z 150) (number_of_Z 30) (number_of_Z 1080)
         (number_of_Z 1920) [])
      "/tmp/remotion-bundle-1" "h264"
      "/home/user/videos/demo_2024-03-09T14-05-07.mp4" in
  exists abs cfg dir url comp,
    extractCompositionConfig w abs = inr cfg
    /\ createTempProject w abs cfg = inr dir
    /\ snd (bundle w (Path.join [dir; "src"; "index.ts"])
              (webpackOverride (Path.resolve (cwd w) [script_dirname w; "node_modules"])
                 (webpack_base w)))
       = inr url
    /\ selectComposition w url (id cfg) = inr comp
    /\ select_calls (trace (run w)) = [(url, id cfg)]
    /\ r_serveUrl opts = url
    /\ r_codec opts = "h264"
    /\ comp_id (r_composition opts) = comp_id comp
    /\ comp_other (r_composition opts) = comp_other comp
    /\ tempProjectDir (run w) = Some dir.
Proof.
  intros w opts. apply (phases_pass_results_on w opts).
  vm_compute. apply list_elem_of_here.
Defined.

(** Where the video is written: the renderer's output location is the
    [--output] value resolved against the working directory when that value
    is a non-empty string, and the generated path beside the input file when
    the option is absent or empty. *)
Theorem render_output_location (w : world) (opts : render_options) :
  opts ∈ render_calls (trace (run w)) ->
  exists args p,
    parseArgs (argv w) = inr args
    /\ inputPath_of args = Some (JStr p)
    /\ r_outputLocation opts
       = match args !! "output" with
         | Some (JStr o) =>
             if bool_decide (o = "")
             then generateOutputPath (now w) (Path.resolve (cwd w) [p])
             else Path.resolve (cwd w) [o]
         | _ => generateOutputPath (now w) (Path.resolve (cwd w) [p])
         end
    /\ args !! "output" ≠ Some JTrue.
Proof.
  unfold_run. simpl. repeat split_lines; read_events; intros Hin;
    try (apply elem_of_nil in Hin; contradiction).
  all: apply list_elem_of_singleton in Hin; subst opts; simpl.
  all: eexists _, _; split; [reflexivity|]; split; [eassumption|].
  all: match goal with H : _ !! "output" = _ |- _ => rewrite H end.
  all: split; [reflexivity|discriminate].
Qed.

Lemma render_output_location_witness :
  let w := sample_world ["--input=demo.tsx"; "--output=out/final.mp4"] sample_config [] [] in
  let opts :=
    mkRender
      (mkComposition "X" (number_of_Z 150) (number_of_Z 30) (number_of_Z 1080)
         (number_of_Z 1920) [])
      "/tmp/remotion-bundle-1" "h264" "/home/user/videos/out/final.mp4" in
  exists args p,
    parseArgs (argv w) = inr args
    /\ inputPath_of args = Some (JStr p)
    /\ r_outputLocation opts
       = match args !! "output" with
         | Some (JStr o) =>
             if bool_decide (o = "")
             then generateOutputPath (now w) (Path.resolve (cwd w) [p])
             else Path.resolve (cwd w) [o]
         | _ => generateOutputPath (now w) (Path.resolve (cwd w) [p])
         end
    /\ args !! "output" ≠ Some JTrue.
Proof.
  intros w opts. apply (render_output_location w opts).
  vm_compute. apply list_elem_of_here.
Defined.

(** The staging directory the run ends with is one [createTempProject]
    returned, for the only request the run made; a run that never got a
    directory ends with none recorded. *)
Theorem staging_directory_recorded (w : world) :
  match tempProjectDir (run w) with
  | Some dir =>
      exists abs cfg,
        staging_calls (trace (run w)) = [(abs, cfg)]
        /\ createTempProject w abs cfg = inr dir
  | None =>
      forall abs cfg, (abs, cfg) ∈ staging_calls (trace (run w)) ->
        exists err, createTempProject w abs cfg = inl err
  end.
Proof.
  unfold_run. simpl. repeat split_lines; read_events.
  all: try (intros abs cfg Hin; apply elem_of_nil in Hin; contradiction).
  all: try (eexists _, _; split; [reflexivity|eassumption]).
  all: intros abs cfg Hin; apply list_elem_of_singleton in Hin.
  all: injection Hin as -> ->; eexists; eassumption.
Qed.

(** ** The report of a failed run *)

Lemma printed_lines_app (t1 t2 : list event) :
  printed_lines (t1 ++ t2) = (printed_lines t1 ++ printed_lines t2)%list.
Proof. unfold printed_lines, console_output. by rewrite omap_app, filter_app. Qed.

Lemma error_lines_app (t1 t2 : list event) :
  error_lines (t1 ++ t2) = (error_lines t1 ++ error_lines t2)%list.
Proof. apply omap_app. Qed.

Lemma success_lines_app (t1 t2 : list event) :
  success_lines (t1 ++ t2) = (success_lines t1 ++ success_lines t2)%list.
Proof. apply omap_app. Qed.

Lemma render_calls_app (t1 t2 : list event) :
  render_calls (t1 ++ t2) = (render_calls t1 ++ render_calls t2)%list.
Proof. apply omap_app. Qed.

(** The start of a run that goes on has shown blank lines only. *)
Lemma resolve_paths_printed (w : world) (x : gmap string jsval * string * string) :
  out (resolve_paths w None) = Returned x ->
  printed_lines (trace (resolve_paths w None)) = [].
Proof.
  unfold resolve_paths, choose_outputPath, printed_lines, console_output. simpl.
  repeat split_lines; intros H; try discriminate; reflexivity.
Qed.

(** A pipeline that throws has shown on the console, apart from blank
    lines, the frame count of each render call it made and nothing else; it
    has printed no error line, and not the final success line. *)
Lemma pipeline_thrown_lines (w : world) (abs outp : string) (cfg : config)
    (dir : option string) (err : exn) :
  out (render_pipeline w abs outp cfg dir) = Thrown err ->
  printed_lines (trace (render_pipeline w abs outp cfg dir))
  = map frames_line (render_calls (trace (render_pipeline w abs outp cfg dir)))
  /\ error_lines (trace (render_pipeline w abs outp cfg dir)) = []
  /\ ("Render complete!" ∉ success_lines (trace (render_pipeline w abs outp cfg dir))).
Proof.
  unfold render_pipeline. simpl. repeat split_lines; intros H; try discriminate.
  all: unfold printed_lines, console_output, render_calls, error_lines, success_lines.
  all: repeat (simpl; rewrite ?omap_app; rewrite ?omap_map_none by (intros; reflexivity)).
  all: split; [reflexivity|]; split; [reflexivity|].
  all: intros Hin; apply list_elem_of_In in Hin; simpl in Hin.
  all: repeat (destruct Hin as [Hin|Hin]; [discriminate|]); exact Hin.
Qed.

Lemma extract_config_lines (w : world) (abs : string) (cfg : config) :
  extractCompositionConfig w abs = inr cfg ->
  out (extract_config w abs None) = Returned cfg
  /\ tempProjectDir (extract_config w abs None) = None
  /\ calls (trace (extract_config w abs None)) = [CExtract]
  /\ error_lines (trace (extract_config w abs None)) = []
  /\ success_lines (trace (extract_config w abs None)) = []
  /\ printed_lines (trace (extract_config w abs None)) = []
  /\ render_calls (trace (extract_config w abs None)) = [].
Proof.
  intros H. unfold extract_config. simpl. rewrite H. simpl. repeat split; reflexivity.
Qed.

(** A run whose pipeline throws an [Error] is the start, the extraction,
    the part of the pipeline that ran, and the [catch] block. *)
Lemma run_pipeline_thrown (w : world) (args : gmap string jsval) (abs outp : string)
    (cfg : config) (err : error) :
  out (resolve_paths w None) = Returned (args, abs, outp) ->
  extractCompositionConfig w abs = inr cfg ->
  out (render_pipeline w abs outp cfg None) = Thrown err ->
  run w
  = mkResult
      (trace (resolve_paths w None) ++ trace (extract_config w abs None)
       ++ trace (render_pipeline w abs outp cfg None)
       ++ (EClearProgress :: EError ("Render failed: " +:+ err_message err)
           :: map log_line (hint_lines (err_message err) ++ stack_lines args err)))%list
      (tempProjectDir (render_pipeline w abs outp cfg None)) (Exited 1).
Proof.
  intros Hpaths Hcfg Hthrown. rewrite (run_after_paths w args abs outp Hpaths).
  destruct (extract_config_lines w abs cfg Hcfg) as (Ho & Hd & _).
  rewrite (bind_returned _ _ _ cfg Ho), Hd.
  unfold after, try_finally, try_catch.
  destruct (render_pipeline w abs outp cfg None) as [t1 d1 o1].
  simpl in Hthrown. subst o1. rewrite render_failed_lines. reflexivity.
Qed.

Lemma console_output_log (l : list string) :
  console_output (map log_line l) = map text_line l.
Proof.
  induction l as [|x l IH]; [reflexivity|].
  change (console_output (map log_line (x :: l)))
    with (text_line x :: console_output (map log_line l)).
  by rewrite IH.
Qed.

Lemma printed_lines_log (l : list string) :
  printed_lines (map log_line l) = map text_line (filter (fun s => s ≠ "") l).
Proof.
  unfold printed_lines. rewrite console_output_log.
  induction l as [|x l IH]; [reflexivity|]. cbn [map].
  destruct x as [|c x].
  - rewrite filter_cons_False by (intros H; discriminate H).
    rewrite filter_cons_False by (intros H; by apply H). exact IH.
  - rewrite filter_cons_True by reflexivity.
    rewrite filter_cons_True by discriminate. cbn [map]. by rewrite IH.
Qed.

Lemma catch_block_lines (m : string) (l : list string) :
  printed_lines (EClearProgress :: EError m :: map log_line l)
  = map text_line (filter (fun s => s ≠ "") l)
  /\ error_lines (EClearProgress :: EError m :: map log_line l) = [m]
  /\ success_lines (EClearProgress :: EError m :: map log_line l) = []
  /\ render_calls (EClearProgress :: EError m :: map log_line l) = [].
Proof.
  split; [exact (printed_lines_log l)|].
  unfold error_lines, success_lines, render_calls. simpl.
  rewrite !omap_map_none by (intros; reflexivity). repeat split; reflexivity.
Qed.

(** The report of a pipeline failure that carries an [Error]: the status is
    1, the only error line is [Render failed:] with the message, the final
    success line is absent, and apart from blank lines the console shows
    the frame count, when the renderer had been called, then the hint chosen
    for the message, then, under a truthy [verbose], the stack. *)
Theorem pipeline_failure_report
    (w : world) (args : gmap string jsval) (abs outp : string) (cfg : config)
    (err : error) :
  out (resolve_paths w None) = Returned (args, abs, outp) ->
  extractCompositionConfig w abs = inr cfg ->
  out (render_pipeline w abs outp cfg None) = Thrown err ->
  out (run w) = Exited 1
  /\ error_lines (trace (run w)) = ["Render failed: " +:+ err_message err]
  /\ ("Render complete!" ∉ success_lines (trace (run w)))
  /\ printed_lines (trace (run w))
     = (map frames_line (render_calls (trace (run w)))
        ++ map text_line
             (filter (fun s => s ≠ "")
                (hint_lines (err_message err) ++ stack_lines args err)))%list.
Proof.
  intros Hpaths Hcfg Hthrown.
  rewrite (run_pipeline_thrown w args abs outp cfg err Hpaths Hcfg Hthrown).
  destruct (resolve_paths_returned w _ Hpaths) as (_ & He1 & Hs1 & _).
  pose proof (resolve_paths_printed w _ Hpaths) as Hl1.
  destruct (resolve_paths_quiet w None) as (_ & _ & _ & _ & Hr1 & _).
  destruct (extract_config_lines w abs cfg Hcfg) as (_ & _ & _ & He2 & Hs2 & Hl2 & Hr2).
  destruct (pipeline_thrown_lines w abs outp cfg None err Hthrown) as (Hl3 & He3 & Hs3).
  cbn [trace out].
  destruct (catch_block_lines ("Render failed: " +:+ err_message err)
              (hint_lines (err_message err) ++ stack_lines args err))
    as (Hl4 & He4 & Hs4 & Hr4).
  rewrite !error_lines_app, !success_lines_app, !printed_lines_app, !render_calls_app.
  rewrite He1, He2, He3, He4, Hs1, Hs2, Hs4, Hl1, Hl2, Hl3, Hl4, Hr1, Hr2, Hr4.
  split; [reflexivity|]. split; [reflexivity|]. split.
  - simpl. rewrite app_nil_r. exact Hs3.
  - simpl. by rewrite app_nil_r.
Qed.

Lemma pipeline_failure_report_witness :
  let w := failing_render_world ["--input=demo.tsx"; "--verbose"]
             (mkError "Error" "ENOENT: no such file or directory"
                "Error: ENOENT: no such file or directory") in
  out (run w) = Exited 1
  /\ error_lines (trace (run w)) = ["Render failed: ENOENT: no such file or directory"]
  /\ ("Render complete!" ∉ success_lines (trace (run w)))
  /\ printed_lines (trace (run w))
     = [[Txt "    "; Num (number_of_Z 150); Txt " frames at "; Num (number_of_Z 30);
         Txt "fps"];
        [Txt "  Hint: A required file or directory was not found"];
        [Txt "  Stack trace:"]; [Txt "Error: ENOENT: no such file or directory"]].
Proof.
  intros w.
  destruct (pipeline_failure_report w
              (<["verbose" := JTrue]> (<["input" := JStr "demo.tsx"]> ∅))
              "/home/user/videos/demo.tsx"
              "/home/user/videos/demo_2024-03-09T14-05-07.mp4" sample_config
              (mkError "Error" "ENOENT: no such file or directory"
                 "Error: ENOENT: no such file or directory"))
    as (H1 & H2 & H3 & H4).
  - vm_compute. reflexivity.
  - reflexivity.
  - vm_compute. reflexivity.
  - split; [exact H1|]. split; [exact H2|]. split; [exact H3|].
    etrans; [exact H4|]. vm_compute. reflexivity.
Defined.

(** A message that mentions [compositionConfig] gets the formatting hint
    alone, whatever else it contains: neither the hint for an unresolved
    module nor the list of supported libraries is shown, even when the
    message also says [Module not found].  Without [verbose], the only other
    line on the console that is not blank is the frame count, there when
    the renderer had been called. *)
Theorem config_hint_takes_precedence
    (w : world) (args : gmap string jsval) (abs outp : string) (cfg : config)
    (err : error) :
  out (resolve_paths w None) = Returned (args, abs, outp) ->
  extractCompositionConfig w abs = inr cfg ->
  out (render_pipeline w abs outp cfg None) = Thrown err ->
  JsString.includes (err_message err) "compositionConfig" = true ->
  truthy (args !! "verbose") = false ->
  printed_lines (trace (run w))
  = (map frames_line (render_calls (trace (run w))) ++ [text_line config_hint])%list.
Proof.
  intros Hpaths Hcfg Hthrown Hc Hv.
  rewrite (run_pipeline_thrown w args abs outp cfg err Hpaths Hcfg Hthrown).
  pose proof (resolve_paths_printed w _ Hpaths) as Hl1.
  destruct (resolve_paths_quiet w None) as (_ & _ & _ & _ & Hr1 & _).
  destruct (extract_config_lines w abs cfg Hcfg) as (_ & _ & _ & _ & _ & Hl2 & Hr2).
  destruct (pipeline_thrown_lines w abs outp cfg None err Hthrown) as (Hl3 & _).
  cbn [trace].
  destruct (catch_block_lines ("Render failed: " +:+ err_message err)
              (hint_lines (err_message err) ++ stack_lines args err))
    as (Hl4 & _ & _ & Hr4).
  rewrite !printed_lines_app, !render_calls_app, Hl1, Hl2, Hl3, Hl4, Hr1, Hr2, Hr4.
  unfold hint_lines, stack_lines. rewrite Hc, Hv. simpl.
  by rewrite app_nil_r.
Qed.

Lemma config_hint_takes_precedence_witness :
  let w := failing_render_world ["--input=demo.tsx"]
             (mkError "Error"
                "Module not found: Error: Can't resolve './compositionConfig'"
                "Error: Module not found: Error: Can't resolve './compositionConfig'") in
  printed_lines (trace (run w))
  = [[Txt "    "; Num (number_of_Z 150); Txt " frames at "; Num (number_of_Z 30);
      Txt "fps"];
     [Txt "  Hint: Check that your compositionConfig is properly formatted"]].
Proof.
  intros w.
  etrans;
    [refine (config_hint_takes_precedence w (<["input" := JStr "demo.tsx"]> ∅)
               "/home/user/videos/demo.tsx"
               "/home/user/videos/demo_2024-03-09T14-05-07.mp4" sample_config
               (mkError "Error"
                  "Module not found: Error: Can't resolve './compositionConfig'"
                  "Error: Module not found: Error: Can't resolve './compositionConfig'")
               _ _ _ _ _)
    |vm_compute; reflexivity].
  - vm_compute. reflexivity.
  - reflexivity.
  - vm_compute. reflexivity.
  - vm_compute. reflexivity.
  - reflexivity.
Defined.





(** ** The report of a successful run *)

(** [Render complete!] is printed exactly by the runs that end with status
    0; such a run has called every collaborator once, in the order of the
    script, has printed no error line, and shows on its console the output
    location it gave the renderer. *)
Theorem success_is_reported_once_rendered (w : world) :
  ("Render complete!" ∈ success_lines (trace (run w)) <-> out (run w) = Exited 0)
  /\ (out (run w) = Exited 0 ->
      calls (trace (run w)) = pipeline_order
      /\ error_lines (trace (run w)) = []
      /\ exists opts,
           render_calls (trace (run w)) = [opts]
           /\ ("  Output: " +:+ r_outputLocation opts) ∈ console_lines (trace (run w))).
Proof.
  about_run w. unfold_phases. simpl. repeat split_phases.
  all: unfold holds_for; read_events.
  all: unfold console_lines;
    repeat (simpl; rewrite ?omap_app; rewrite ?omap_map_none by (intros; reflexivity)).
  all: split; [split|].
  all: try (intros H; discriminate H).
  all: try (intros _; reflexivity).
  all: try (intros Hin; apply list_elem_of_In in Hin; simpl in Hin;
            rewrite ?append_cons, ?append_nil_l in Hin;
            repeat (destruct Hin as [Hin|Hin]; [discriminate|]); contradiction).
  all: try (intros _; find_member).
  all: intros _; split; [reflexivity|]; split; [reflexivity|].
  all: eexists; split; [reflexivity|]; find_member.
Qed.

(** ** Further properties of the command line *)



(** [verbose] is read for its truthiness only: any non-empty value switches
    the stack on, [--verbose=false] included, and an empty value leaves it
    off. *)
Theorem verbose_value_is_not_read
    (before after : list string) (v : string) (err : error) (dir : option string) :
  (forall b, b ∈ after -> arg_key b ≠ Some "verbose") ->
  (forall b, b ∈ (before ++ after)%list -> arg_key b ≠ Some "_positional") ->
  exists args,
    parseArgs (before ++ ("--verbose=" +:+ v) :: after) = inr args
    /\ console_lines (trace (render_failed args err dir))
       = (hint_lines (err_message err)
          ++ if bool_decide (JsString.strip_quotes v = "") then []
             else [""; "  Stack trace:"; err_stack err])%list.
Proof.
  intros Hafter Hpos.
  destruct (arg_key_assignment "verbose" v eq_refl) as [Hk Hval].
  change ("--" +:+ "verbose" +:+ "=" +:+ v) with ("--verbose=" +:+ v) in Hk, Hval.
  destruct (parseArgs_option before after _ "verbose" Hk ltac:(discriminate)
              ltac:(discriminate) Hafter Hpos)
    as (args & Hp & Hv & _).
  exists args. split; [exact Hp|].
  rewrite render_failed_lines. cbn [trace].
  change (console_lines (EClearProgress :: EError ?m :: map log_line ?l))
    with (console_lines (map log_line l)).
  rewrite console_lines_log. unfold stack_lines. rewrite Hv, Hval. simpl.
  by destruct (bool_decide (JsString.strip_quotes v = "")).
Qed.

Lemma verbose_value_is_not_read_witness :
  exists args,
    parseArgs (["demo.tsx"] ++ ("--verbose=" +:+ "false") :: []) = inr args
    /\ console_lines (trace (render_failed args (mkError "Error" "boom" "Error: boom") None))
       = [""; "  Stack trace:"; "Error: boom"].
Proof.
  apply (verbose_value_is_not_read ["demo.tsx"] [] "false"
           (mkError "Error" "boom" "Error: boom") None).
  - intros b Hb. apply elem_of_nil in Hb. contradiction.
  - intros b Hb. apply list_elem_of_In in Hb. simpl in Hb.
    destruct Hb as [<-|[]]; vm_compute; discriminate.
Defined.



(** A bare [--input] stores [true], which is truthy, so no usage line is
    printed; [path.resolve] then rejects the value, and the run ends with a
    [TypeError] before the validator is called, having printed the banner
    only. *)
Theorem bare_input_flag_is_a_type_error (w : world) (before after : list string) :
  argv w = (before ++ "--input" :: after)%list ->
  (forall b, b ∈ after -> arg_key b ≠ Some "input") ->
  (forall b, b ∈ (before ++ after)%list -> arg_key b ≠ Some "_positional") ->
  (exists e : error, out (run w) = Thrown e /\ err_name e = "TypeError")
  /\ trace (run w) = [EBanner "Remotion Video Renderer"].
Proof.
  intros Hargv Hafter Hpos.
  destruct (parseArgs_option before after "--input" "input" eq_refl ltac:(discriminate)
              ltac:(discriminate) Hafter Hpos) as (args & Hp & Hi & _).
  change (arg_value "--input") with JTrue in Hi.
  assert (Hin : inputPath_of args = Some JTrue) by (unfold inputPath_of; by rewrite Hi).
  unfold_run. simpl. rewrite Hargv, Hp. simpl. rewrite Hin. simpl.
  split; [eexists; split; reflexivity|reflexivity].
Qed.

Lemma bare_input_flag_is_a_type_error_witness :
  let w := sample_world ["demo.tsx"; "--input"] sample_config [] [] in
  (exists e : error, out (run w) = Thrown e /\ err_name e = "TypeError")
  /\ trace (run w) = [EBanner "Remotion Video Renderer"].
Proof.
  intros w. apply (bare_input_flag_is_a_type_error w ["demo.tsx"] []).
  - reflexivity.
  - intros b Hb. apply elem_of_nil in Hb. contradiction.
  - intros b Hb. apply list_elem_of_In in Hb. simpl in Hb.
    destruct Hb as [<-|[]]; vm_compute; discriminate.
Defined.

(** A bare [--output] is truthy as well: the input is validated, then
    [path.resolve] rejects the value, and the run ends with a [TypeError]
    before the extractor is called and without any error line. *)
Theorem bare_output_flag_is_a_type_error
    (w : world) (args : gmap string jsval) (p : string) :
  parseArgs (argv w) = inr args ->
  inputPath_of args = Some (JStr p) -> p ≠ "" ->
  validateTsxFile w (Path.resolve (cwd w) [p]) = None ->
  args !! "output" = Some JTrue ->
  (exists e : error, out (run w) = Thrown e /\ err_name e = "TypeError")
  /\ calls (trace (run w)) = [CValidate]
  /\ error_lines (trace (run w)) = []
  /\ console_lines (trace (run w)) = [].
Proof.
  intros Hp Hin Hne Hval Hout. unfold_run. simpl. rewrite Hp. simpl. rewrite Hin.
  destruct p as [|c p]; [contradiction|]. simpl. rewrite Hval. simpl.
  rewrite Hout. simpl.
  split; [eexists; split; reflexivity|repeat split; reflexivity].
Qed.

Lemma bare_output_flag_is_a_type_error_witness :
  let w := sample_world ["demo.tsx"; "--output"] sample_config [] [] in
  (exists e : error, out (run w) = Thrown e /\ err_name e = "TypeError")
  /\ calls (trace (run w)) = [CValidate]
  /\ error_lines (trace (run w)) = []
  /\ console_lines (trace (run w)) = [].
Proof.
  intros w.
  apply (bare_output_flag_is_a_type_error w
           (<["output" := JTrue]> (<["_positional" := JArr ["demo.tsx"]]> ∅)) "demo.tsx").
  - vm_compute. reflexivity.
  - vm_compute. reflexivity.
  - discriminate.
  - reflexivity.
  - vm_compute. reflexivity.
Defined.

(** An option named [_positional] takes the place of the list of
    arguments: the first argument after it that is not an option makes
    [parseArgs] call [push] on a string or on [true], and the run ends with
    a [TypeError] right after the banner. *)
Theorem positional_option_breaks_parsing
    (w : world) (flag x : string) (options rest : list string) :
  argv w = (flag :: options ++ x :: rest)%list ->
  arg_key flag = Some "_positional" ->
  truthy (Some (arg_value flag)) = true ->
  (forall b, b ∈ options -> exists k, arg_key b = Some k /\ k ≠ "_positional") ->
  arg_key x = None ->
  (exists e, parseArgs (argv w) = inl e /\ out (run w) = Thrown e
             /\ err_name e = "TypeError")
  /\ trace (run w) = [EBanner "Remotion Video Renderer"].
Proof.
  intros Hargv Hflag Htruthy Hopts Hx.
  assert (Hparse : parseArgs (argv w)
                   = inl (TypeError "args._positional.push is not a function")).
  { rewrite Hargv. unfold parseArgs. cbn [parseArgs_from].
    rewrite (parseArg_flag ∅ flag "_positional" Hflag).
    assert (Hgen : forall acc,
               acc !! "_positional" = Some (arg_value flag) ->
               parseArgs_from acc (options ++ x :: rest)
               = inl (TypeError "args._positional.push is not a function")).
    { clear Hargv. induction options as [|b options IH]; intros acc Hacc.
      - cbn [app parseArgs_from]. unfold parseArg.
        unfold arg_key in Hx. destruct (JsString.startsWith x "--"); [discriminate|].
        rewrite Hacc, Htruthy. cbn [negb].
        unfold arg_value in *. destruct (0 <? JsString.indexOf flag "="); reflexivity.
      - destruct (Hopts b) as (k & Hk & Hne); [left|].
        cbn [app parseArgs_from]. rewrite (parseArg_flag acc b k Hk).
        apply IH.
        + intros b' Hb'. apply Hopts. by right.
        + by rewrite lookup_set_property_ne. }
    apply Hgen. by apply lookup_set_property_eq. }
  split.
  - eexists. split; [exact Hparse|]. split; [|reflexivity].
    unfold_run. simpl. rewrite Hparse. reflexivity.
  - unfold_run. simpl. rewrite Hparse. reflexivity.
Qed.

Lemma positional_option_breaks_parsing_witness :
  let w := sample_world ["--_positional=x"; "--verbose"; "demo.tsx"] sample_config [] [] in
  (exists e, parseArgs (argv w) = inl e /\ out (run w) = Thrown e
             /\ err_name e = "TypeError")
  /\ trace (run w) = [EBanner "Remotion Video Renderer"].
Proof.
  intros w.
  apply (positional_option_breaks_parsing w "--_positional=x" "demo.tsx" ["--verbose"] []).
  - reflexivity.
  - reflexivity.
  - reflexivity.
  - intros b Hb. apply list_elem_of_singleton in Hb. subst b.
    exists "verbose". split; [reflexivity|discriminate].
  - reflexivity.
Defined.

(** ** Quote stripping, in general *)

(** The value stored for [--key=value] is the value with at most one
    character removed at each end, and a removed character is a quote.  The
    two ends are treated apart: a quote at one end goes even when the other
    end has none, or has a quote of the other kind. *)
Theorem strip_quotes_removes_only_quotes (value : string) :
  exists pre post,
    value = pre +:+ JsString.strip_quotes value +:+ post
    /\ (pre = "" \/ exists q, JsString.is_quote q = true /\ pre = String q "")
    /\ (post = "" \/ exists q, JsString.is_quote q = true /\ post = String q "")
    /\ (forall q rest, value = String q rest -> JsString.is_quote q = true ->
          pre = String q "")
    /\ (forall body q, value = body +:+ String q "" -> body ≠ "" ->
          JsString.is_quote q = true -> post = String q "").
Proof. exact (strip_quotes_shape value). Qed.

(** ** The generated output path, continued *)

(** The name is cut at the second: the milliseconds of the clock never
    reach it, so two runs on one input within the same second get the same
    output path. *)
Theorem output_path_repeats_within_a_second (d : Date) (ms ms' : Z) (path : string) :
  0 <= utc_year d <= 9999 ->
  timestamp (with_milliseconds d ms) = second_stamp d
  /\ generateOutputPath (with_milliseconds d ms) path
     = generateOutputPath (with_milliseconds d ms') path.
Proof.
  intros Hyear.
  assert (H : forall m, timestamp (with_milliseconds d m) = second_stamp d).
  { intros m. by rewrite (timestamp_to_the_second (with_milliseconds d m)). }
  split; [apply H|]. unfold generateOutputPath. by rewrite !H.
Qed.

Lemma output_path_repeats_within_a_second_witness :
  timestamp (with_milliseconds sample_date 1) = second_stamp sample_date
  /\ generateOutputPath (with_milliseconds sample_date 1) "/home/user/videos/demo.tsx"
     = generateOutputPath (with_milliseconds sample_date 999) "/home/user/videos/demo.tsx".
Proof.
  apply (output_path_repeats_within_a_second sample_date 1 999 "/home/user/videos/demo.tsx").
  simpl. lia.
Defined.

(** The base name of a file whose name does not end in [x]: the suffix
    [.tsx] does not match, and the whole name is kept. *)
Lemma basename_other_ending (dir body : string) (c : ascii) :
  occurs "/"%char body = false -> c ≠ "x"%char -> c ≠ "/"%char ->
  (2 <= String.length dir + String.length body)%nat ->
  Path.basename (dir +:+ "/" +:+ body +:+ String c "") ".tsx" = body +:+ String c "".
Proof.
  intros Hbody Hx Hslash Hlong.
  assert (Hlen : String.length (dir +:+ "/" +:+ body +:+ String c "")
                 = (String.length dir + 1 + String.length body + 1)%nat).
  { rewrite !length_append. simpl. lia. }
  assert (Hdiff : ".tsx" ≠ dir +:+ "/" +:+ body +:+ String c "").
  { intros E. apply (f_equal (occurs "/"%char)) in E.
    rewrite !occurs_append in E. simpl in E.
    rewrite orb_true_r in E. discriminate. }
  assert (Hrev : rev (Path.chars (dir +:+ "/" +:+ body +:+ String c ""))
                 = (c :: rev (Path.chars body) ++ "/"%char :: rev (Path.chars dir))%list).
  { rewrite !chars_append, !rev_app_distr. simpl. by rewrite <- !app_assoc. }
  assert (Hc : Path.is_slash c = false).
  { unfold Path.is_slash. by apply bool_decide_eq_false_2. }
  unfold Path.basename.
  rewrite (bool_decide_eq_false_2 _ Hdiff), Hrev, Hlen.
  replace (negb (bool_decide (".tsx" = "")) &&
           (Z.of_nat (String.length ".tsx")
            <=? Z.of_nat (String.length dir + 1 + String.length body + 1)))
    with true by (symmetry; apply andb_true_iff; split;
                  [reflexivity|apply Z.leb_le; simpl; lia]).
  change (rev (Path.chars ".tsx")) with ["x"%char; "s"%char; "t"%char; "."%char].
  rewrite basename_scan_char by exact Hc. cbv zeta.
  change (-1 =? -1) with true. cbv iota.
  rewrite (bool_decide_eq_false_2 _ Hx).
  rewrite basename_scan_plain;
    [|apply Forall_rev, chars_no_slash, Hbody|reflexivity|simpl; lia].
  simpl Path.basename_scan. cbn [Path.b_start Path.b_end Path.b_firstNonSlashEnd].
  rewrite !length_app, !length_rev, !length_chars. simpl length.
  rewrite ?length_rev, ?length_chars.
  rewrite (proj2 (Z.eqb_neq _ _)) by lia.
  rewrite (proj2 (Z.eqb_neq _ (-1))) by lia.
  unfold JsString.slice.
  replace (Z.to_nat (Z.of_nat (String.length body + S (String.length dir)) + 1
                     - (Z.of_nat (String.length dir) + 1)))
    with (String.length (body +:+ String c "")) by (rewrite length_append; simpl; lia).
  replace (Z.to_nat (Z.of_nat (String.length dir) + 1)) with (S (String.length dir)) by lia.
  change ("/" +:+ body +:+ String c "") with (String "/" (body +:+ String c "")).
  rewrite drop_append_cons.
  rewrite <- (append_nil_r (body +:+ String c "")) at 2. apply take_append.
Qed.

(** Only the exact suffix [.tsx] is cut from the name: a file whose name
    ends otherwise, an upper-case [.TSX] for one, keeps its whole name, dot
    and extension included, in front of the timestamp. *)
Theorem other_extension_stays_in_output_name
    (now : Date) (segs : list string) (body : string) (c : ascii) :
  Forall (fun s => plain_segment s = true) segs ->
  occurs "/"%char body = false -> c ≠ "x"%char -> c ≠ "/"%char ->
  (2 <= String.length body)%nat ->
  0 <= utc_year now <= 9999 ->
  generateOutputPath now (absolute_path segs +:+ "/" +:+ body +:+ String c "")
  = absolute_path segs +:+ "/" +:+ (body +:+ String c "") +:+ "_"
    +:+ second_stamp now +:+ ".mp4".
Proof.
  intros Hsegs Hbody Hx Hslash Hlong Hyear.
  assert (Hfile : occurs "/"%char (body +:+ String c "") = false).
  { rewrite occurs_append, Hbody. simpl.
    by rewrite (bool_decide_eq_false_2 _ Hslash). }
  unfold generateOutputPath.
  rewrite (dirname_of_file segs (body +:+ String c "")); [|exact Hsegs| |exact Hfile].
  - rewrite basename_other_ending by (try assumption; lia).
    rewrite (timestamp_to_the_second _ Hyear).
    apply join_directory_file; [exact Hsegs|].
    apply long_segment_plain.
    + rewrite !length_append, second_stamp_length. simpl. lia.
    + rewrite !occurs_append, Hbody, second_stamp_no_slash. simpl.
      by rewrite (bool_decide_eq_false_2 _ Hslash).
  - destruct body; discriminate.
Qed.

Lemma other_extension_stays_in_output_name_witness :
  generateOutputPath sample_date "/home/user/videos/Clip.TSX"
  = "/home/user/videos/Clip.TSX_2024-03-09T14-05-07.mp4".
Proof.
  apply (other_extension_stays_in_output_name sample_date ["home"; "user"; "videos"]
           "Clip.TS" "X"%char).
  - repeat constructor.
  - reflexivity.
  - discriminate.
  - discriminate.
  - simpl. lia.
  - simpl. lia.
Defined.

(** ** The paths given to the bundler *)

Lemma absolute_path_app (a b : list string) :
  absolute_path (a ++ b) = absolute_path a +:+ absolute_path b.
Proof.
  induction a as [|seg a IH]; [reflexivity|].
  rewrite <- app_comm_cons, !absolute_path_cons, IH. push_append.
  by rewrite append_assoc.
Qed.

Lemma absolute_path_nonempty (segs : list string) : segs ≠ [] -> absolute_path segs ≠ "".
Proof. destruct segs; [contradiction|]. rewrite absolute_path_cons. discriminate. Qed.

Lemma join_staged_entry (staging : list string) :
  Forall (fun s => plain_segment s = true) staging -> staging ≠ [] ->
  Path.join [absolute_path staging; "src"; "index.ts"]
  = absolute_path staging +:+ "/src/index.ts".
Proof.
  intros Hplain Hne. unfold Path.join.
  rewrite filter_cons_True by (by apply absolute_path_nonempty).
  rewrite filter_cons_True by discriminate.
  rewrite filter_cons_True by discriminate.
  change (filter _ []) with (@nil string). cbn [Path.join_segments].
  replace (absolute_path staging +:+ "/" +:+ "src" +:+ "/" +:+ "index.ts")
    with (absolute_path (staging ++ ["src"]) +:+ "/" +:+ "index.ts")
    by (rewrite absolute_path_app; simpl absolute_path; by rewrite append_assoc).
  rewrite (normalize_absolute (staging ++ ["src"]) false "index.ts").
  - rewrite absolute_path_app. simpl absolute_path. by rewrite append_assoc.
  - apply Forall_app. split; [exact Hplain|repeat constructor].
  - reflexivity.
  - discriminate.
Qed.

Lemma resolve_renderer_modules (cwd : string) (script : list string) :
  Forall (fun s => plain_segment s = true) script -> script ≠ [] ->
  Path.resolve cwd [absolute_path script; "node_modules"]
  = absolute_path script +:+ "/node_modules".
Proof.
  intros Hplain Hne. unfold Path.resolve. simpl rev. cbn [Path.resolve_loop].
  rewrite (bool_decide_eq_false_2 ("node_modules" = "")) by discriminate.
  change (Path.isAbsolute "node_modules") with false. cbv iota.
  rewrite (bool_decide_eq_false_2 _ (absolute_path_nonempty script Hne)).
  assert (Habs : Path.isAbsolute (absolute_path script) = true).
  { destruct script; [contradiction|]. by rewrite absolute_path_cons. }
  rewrite Habs. cbv iota. cbn [negb].
  unfold Path.normalizeString.
  change ("/" +:+ ("node_modules" +:+ "/" +:+ "")) with (String "/" "node_modules/").
  rewrite (split_absolute script "node_modules/" Hplain).
  change (Path.split "node_modules/") with ["node_modules"; ""].
  rewrite <- app_comm_cons. cbn [fold_left].
  change (Path.normalize_step false [] "") with (@nil string).
  rewrite fold_left_app, (normalize_fold_plain false script [] Hplain), app_nil_r.
  cbn [fold_left]. rewrite (normalize_step_plain false _ "node_modules" eq_refl).
  change (Path.normalize_step false ?r "") with r.
  cbn [rev]. rewrite rev_involutive.
  apply (join_segments_absolute script "node_modules").
Qed.

(** The bundler works inside the staging directory and resolves modules
    from the renderer's own installation: with both directories given as
    absolute paths, its entry point is [src/index.ts] under the directory
    [createTempProject] returned, and the directory put in front of the
    module search paths is [node_modules] beside the script, whatever the
    working directory. *)
Theorem bundler_entry_and_modules
    (w : world) (staging script : list string) (abs : string) (cfg : config) :
  Forall (fun s => plain_segment s = true) staging -> staging ≠ [] ->
  Forall (fun s => plain_segment s = true) script -> script ≠ [] ->
  script_dirname w = absolute_path script ->
  staging_calls (trace (run w)) = [(abs, cfg)] ->
  createTempProject w abs cfg = inr (absolute_path staging) ->
  bundle_calls (trace (run w))
  = [(absolute_path staging +:+ "/src/index.ts",
      webpackOverride (absolute_path script +:+ "/node_modules") (webpack_base w))].
Proof.
  intros Hstaging Hne Hscript Hne' Hdir.
  pose proof (join_staged_entry staging Hstaging Hne) as Hentry.
  pose proof (resolve_renderer_modules (cwd w) script Hscript Hne') as Hmodules.
  unfold_run. simpl. repeat split_lines; read_events; intros Hcalls Hcreate;
    try discriminate.
  all: injection Hcalls as <- <-.
  all: try congruence.
  all: match goal with
       | H : createTempProject _ _ _ = inr ?s |- _ =>
           is_var s; assert (s = absolute_path staging) by congruence; subst s
       end.
  all: by rewrite Hdir, Hentry, Hmodules.
Qed.

Lemma bundler_entry_and_modules_witness :
  let w := sample_world ["--input=demo.tsx"] sample_config [] [] in
  bundle_calls (trace (run w))
  = [("/tmp/remotion-render-1/src/index.ts",
      webpackOverride "/opt/remotion-renderer/renderer/node_modules" (webpack_base w))].
Proof.
  intros w.
  apply (bundler_entry_and_modules w ["tmp"; "remotion-render-1"]
           ["opt"; "remotion-renderer"; "renderer"] "/home/user/videos/demo.tsx"
           sample_config).
  - repeat constructor.
  - discriminate.
  - repeat constructor.
  - discriminate.
  - reflexivity.
  - vm_compute. reflexivity.
  - reflexivity.
Defined.

(** ** The launcher *)

Lemma after_last_absent (c : ascii) (s : string) :
  occurs c s = false -> RenderSh.after_last c s = None.
Proof.
  induction s as [|a s IH]; [reflexivity|]. simpl. intros H.
  apply orb_false_iff in H as [Ha Hs]. by rewrite (IH Hs), Ha.
Qed.

Lemma after_last_suffix (c : ascii) (s suffix : string) :
  occurs c suffix = false ->
  RenderSh.after_last c (s +:+ String c suffix) = Some suffix.
Proof.
  intros H. induction s as [|a s IH]; push_append.
  - simpl. rewrite (after_last_absent c suffix H).
    by rewrite bool_decide_eq_true_2.
  - simpl. by rewrite IH.
Qed.

Lemma after_last_keeps_suffix (c : ascii) (s suffix : string) :
  occurs c suffix = false ->
  exists b,
    default (s +:+ suffix) (RenderSh.after_last c (s +:+ suffix)) = b +:+ suffix.
Proof.
  intros H. induction s as [|a s IH]; push_append.
  - exists "". by rewrite (after_last_absent c suffix H).
  - destruct IH as (b & IH). simpl.
    destruct (RenderSh.after_last c (s +:+ suffix)) as [r|].
    + exists b. exact IH.
    + destruct (bool_decide (a = c)).
      * by exists s.
      * by exists (String a s).
Qed.

Lemma strip_trailing_absent (c : ascii) (s : string) :
  occurs c s = false -> RenderSh.strip_trailing c s = s.
Proof.
  induction s as [|a s IH]; [reflexivity|]. simpl. intros H.
  apply orb_false_iff in H as [Ha Hs]. rewrite (IH Hs).
  destruct s; [by rewrite Ha|reflexivity].
Qed.

Lemma strip_trailing_kept (c : ascii) (s suffix : string) :
  occurs c suffix = false -> suffix ≠ "" ->
  RenderSh.strip_trailing c (s +:+ suffix) = s +:+ suffix.
Proof.
  intros H Hne. induction s as [|a s IH]; push_append.
  - by apply strip_trailing_absent.
  - simpl. rewrite IH. destruct (s +:+ suffix) eqn:E; [|reflexivity].
    destruct s; [|discriminate]. by rewrite append_nil_l in E.
Qed.

Lemma strip_trailing_snoc (c : ascii) (s : string) :
  RenderSh.strip_trailing c (s +:+ String c "") = RenderSh.strip_trailing c s.
Proof.
  induction s as [|a s IH]; push_append.
  - simpl. by rewrite bool_decide_eq_true_2.
  - simpl. by rewrite IH.
Qed.

Lemma lower_append (a b : string) :
  RenderSh.lower (a +:+ b) = RenderSh.lower a +:+ RenderSh.lower b.
Proof. induction a as [|x a IH]; push_append; simpl; [reflexivity|by rewrite IH]. Qed.

(** Lower-casing neither makes nor removes a newline. *)
Lemma lower_char_newline (a : ascii) :
  bool_decide (RenderSh.lower_char a = RenderSh.newline)
  = bool_decide (a = RenderSh.newline).
Proof. destruct a as [[] [] [] [] [] [] [] []]; reflexivity. Qed.

Lemma lower_no_newline (s : string) :
  occurs RenderSh.newline (RenderSh.lower s) = occurs RenderSh.newline s.
Proof.
  induction s as [|a s IH]; [reflexivity|]. simpl.
  by rewrite lower_char_newline, IH.
Qed.

(** The extension the launcher compares: empty when [echo] takes the
    extension for options, and the lower-cased extension otherwise. *)
Lemma extension_lower_spec (ext : string) :
  occurs RenderSh.newline ext = false ->
  RenderSh.extension_lower ext
  = if RenderSh.is_echo_option ext then "" else RenderSh.lower ext.
Proof.
  intros H. unfold RenderSh.extension_lower, RenderSh.echo.
  destruct (RenderSh.is_echo_option ext); [reflexivity|].
  rewrite lower_append.
  change (RenderSh.lower (String RenderSh.newline ""))
    with (String RenderSh.newline "").
  rewrite strip_trailing_snoc. apply strip_trailing_absent.
  by rewrite lower_no_newline.
Qed.

Lemma basename_utility_kept (s : string) :
  s ≠ "" -> RenderSh.strip_trailing "/" s = s ->
  RenderSh.basename_utility s = default s (RenderSh.after_last "/" s).
Proof.
  intros Hne Hs. unfold RenderSh.basename_utility.
  rewrite bool_decide_eq_false_2 by exact Hne. rewrite Hs.
  destruct s; [contradiction|reflexivity].
Qed.

(** The extension of a path whose last separator, a dot or a slash, is
    followed by [ext]. *)
Lemma file_extension_after (pre : string) (sep : ascii) (ext : string) :
  sep = "."%char \/ (sep = "/"%char /\ ext ≠ "") ->
  occurs "."%char ext = false -> occurs "/"%char ext = false ->
  occurs RenderSh.newline ext = false ->
  RenderSh.file_extension (pre +:+ String sep ext) = ext.
Proof.
  intros Hsep Hdot Hslash Hnl.
  unfold RenderSh.file_extension.
  assert (Hne : pre +:+ String sep ext ≠ "") by (destruct pre; discriminate).
  destruct Hsep as [->|[-> Hext]].
  - rewrite basename_utility_kept;
      [|exact Hne
       |apply (strip_trailing_kept "/" pre (String "." ext));
        [simpl; by rewrite Hslash|discriminate]].
    destruct (after_last_keeps_suffix "/" pre (String "." ext)) as (b & ->);
      [by simpl; rewrite Hslash|].
    rewrite (strip_trailing_kept RenderSh.newline b (String "." ext))
      by first [discriminate | simpl; by rewrite Hnl].
    unfold RenderSh.remove_through_last_dot.
    by rewrite (after_last_suffix "." b ext Hdot).
  - assert (E : pre +:+ String "/" ext = (pre +:+ String "/" "") +:+ ext)
      by (by rewrite append_assoc).
    rewrite basename_utility_kept;
      [|exact Hne
       |rewrite E; by apply (strip_trailing_kept "/" (pre +:+ String "/" "") ext)].
    rewrite (after_last_suffix "/" pre ext Hslash). cbv [from_option Datatypes.id].
    rewrite (strip_trailing_absent _ _ Hnl).
    unfold RenderSh.remove_through_last_dot.
    by rewrite (after_last_absent "." ext Hdot).
Qed.

Lemma file_extension_bare (ext : string) :
  ext ≠ "" ->
  occurs "."%char ext = false -> occurs "/"%char ext = false ->
  occurs RenderSh.newline ext = false ->
  RenderSh.file_extension ext = ext.
Proof.
  intros Hne Hdot Hslash Hnl.
  unfold RenderSh.file_extension.
  rewrite basename_utility_kept by (try exact Hne; by apply strip_trailing_absent).
  rewrite (after_last_absent _ _ Hslash). cbv [from_option Datatypes.id].
  rewrite (strip_trailing_absent _ _ Hnl).
  unfold RenderSh.remove_through_last_dot.
  by rewrite (after_last_absent "." _ Hdot).
Qed.

(** A spelling of [tsx] in any case is three letters. *)
Lemma lower_tsx (ext : string) :
  RenderSh.lower ext = "tsx" ->
  ext ≠ "" /\ occurs "."%char ext = false /\ occurs "/"%char ext = false
  /\ occurs RenderSh.newline ext = false /\ RenderSh.is_echo_option ext = false.
Proof.
  destruct ext as [|a [|b [|c [|d ext]]]]; try discriminate.
  intros [= Ha Hb Hc].
  assert (H : forall x y : ascii,
             RenderSh.lower_char x = y ->
             (97 <= nat_of_ascii y <= 122)%nat ->
             bool_decide (x = "."%char) = false /\ bool_decide (x = "/"%char) = false
             /\ bool_decide (x = RenderSh.newline) = false
             /\ bool_decide (x = "-"%char) = false).
  { intros x y Hxy Hy. repeat split; apply bool_decide_eq_false_2; intros ->;
      subst y; vm_compute in Hy; lia. }
  destruct (H a _ Ha) as (A1 & A2 & A3 & A4); [vm_compute; lia|].
  destruct (H b _ Hb) as (B1 & B2 & B3 & _); [vm_compute; lia|].
  destruct (H c _ Hc) as (C1 & C2 & C3 & _); [vm_compute; lia|].
  split; [discriminate|]. simpl.
  rewrite A1, A2, A3, A4, B1, B2, B3, C1, C2, C3. repeat split; reflexivity.
Qed.

(** The launcher lets a file through when its path ends in [tsx] spelt in
    any case, provided that spelling is the whole path or follows a dot or
    a slash: [Clip.TSX] passes, and so does a file that is just called
    [tsx], with no extension at all.  Node is then run on the renderer with
    [--input=] and the first parameter, and with [--output=] and the second
    one when it is not empty. *)
Theorem launcher_accepts_any_case
    (env : RenderSh.shell_env) (pre ext : string) (rest : list string) :
  RenderSh.lower ext = "tsx" ->
  (pre = "" \/ exists pre' sep, pre = pre' +:+ String sep ""
                                /\ (sep = "."%char \/ sep = "/"%char)) ->
  RenderSh.regular_file env (pre +:+ ext) = true ->
  RenderSh.render_sh env ((pre +:+ ext) :: rest)
  = RenderSh.RunNode (RenderSh.node_exe_of env)
      (RenderSh.script_dir env +:+ "/renderer/render-cli.js")
      (if bool_decide (nth 0 rest "" = "") then ["--input=" +:+ pre +:+ ext]
       else ["--input=" +:+ pre +:+ ext; "--output=" +:+ nth 0 rest ""]).
Proof.
  intros Hext Hpre Hfile.
  destruct (lower_tsx ext Hext) as (Hne & Hdot & Hslash & Hnl & Hopt).
  assert (Hextension : RenderSh.file_extension (pre +:+ ext) = ext).
  { destruct Hpre as [->|(pre' & sep & -> & Hsep)].
    - rewrite append_nil_l. by apply file_extension_bare.
    - rewrite append_assoc. change (String sep "" +:+ ext) with (String sep ext).
      apply file_extension_after; try assumption.
      destruct Hsep as [->| ->]; [by left|by right]. }
  unfold RenderSh.render_sh. cbn [nth].
  rewrite bool_decide_eq_false_2
    by (destruct pre; [by rewrite append_nil_l|discriminate]).
  rewrite Hfile, Hextension, (extension_lower_spec ext Hnl), Hopt, Hext.
  reflexivity.
Qed.

Lemma launcher_accepts_any_case_witness :
  let env := RenderSh.mkShell "/opt/remotion-renderer" (fun _ => false)
               (fun p => bool_decide (p = "videos/Clip.TSX")) in
  RenderSh.render_sh env ["videos/Clip.TSX"; "out.mp4"]
  = RenderSh.RunNode "node" "/opt/remotion-renderer/renderer/render-cli.js"
      ["--input=videos/Clip.TSX"; "--output=out.mp4"].
Proof.
  intros env.
  apply (launcher_accepts_any_case env "videos/Clip." "TSX" ["out.mp4"]).
  - reflexivity.
  - right. exists "videos/Clip", "."%char. split; [reflexivity|by left].
  - reflexivity.
Defined.

(** A file whose name ends in a dot and anything but a spelling of [tsx] is
    turned away with status 1, and the message shows the extension as it
    was written. *)
Theorem launcher_reports_extension
    (env : RenderSh.shell_env) (pre ext : string) (rest : list string) :
  occurs "."%char ext = false -> occurs "/"%char ext = false ->
  occurs RenderSh.newline ext = false ->
  RenderSh.lower ext ≠ "tsx" ->
  RenderSh.regular_file env (pre +:+ "." +:+ ext) = true ->
  RenderSh.render_sh env ((pre +:+ "." +:+ ext) :: rest)
  = RenderSh.ExitWith ("ERROR: File must be a .tsx file, got: ." +:+ ext) 1.
Proof.
  intros Hdot Hslash Hnl Hext Hfile.
  assert (Hextension : RenderSh.file_extension (pre +:+ "." +:+ ext) = ext)
    by (apply (file_extension_after pre "." ext); auto).
  unfold RenderSh.render_sh. cbn [nth].
  rewrite bool_decide_eq_false_2 by (destruct pre; discriminate).
  rewrite Hfile, Hextension, (extension_lower_spec ext Hnl). cbn [negb].
  rewrite bool_decide_eq_false_2; [reflexivity|].
  destruct (RenderSh.is_echo_option ext); [discriminate|exact Hext].
Qed.

Lemma launcher_reports_extension_witness :
  let env := RenderSh.mkShell "/opt/remotion-renderer" (fun _ => false) (fun _ => true) in
  RenderSh.render_sh env ["videos/Clip.Jsx"]
  = RenderSh.ExitWith "ERROR: File must be a .tsx file, got: .Jsx" 1.
Proof.
  intros env.
  apply (launcher_reports_extension env "videos/Clip" "Jsx" []).
  - reflexivity.
  - reflexivity.
  - reflexivity.
  - discriminate.
  - reflexivity.
Defined.

(** What the renderer reads of a launch: whenever the launcher runs node,
    the arguments it passes parse, [input] is the first parameter with a
    quote at either end removed, [output] is the second parameter treated
    alike or is absent, and neither [verbose] nor a positional argument is
    ever set. *)
Theorem launcher_arguments_parse
    (env : RenderSh.shell_env) (params : list string) (exe script : string)
    (node_argv : list string) :
  RenderSh.render_sh env params = RenderSh.RunNode exe script node_argv ->
  exists args,
    parseArgs node_argv = inr args
    /\ args !! "input" = Some (JStr (JsString.strip_quotes (nth 0 params "")))
    /\ args !! "output"
       = (if bool_decide (nth 1 params "" = "") then None
          else Some (JStr (JsString.strip_quotes (nth 1 params ""))))
    /\ args !! "verbose" = None
    /\ args !! "_positional" = None.
Proof.
  unfold RenderSh.render_sh.
  destruct (arg_key_assignment "input" (nth 0 params "") eq_refl) as [Hk Hv].
  destruct (arg_key_assignment "output" (nth 1 params "") eq_refl) as [Hk' Hv'].
  change ("--" +:+ "input" +:+ "=" +:+ ?v) with ("--input=" +:+ v) in Hk, Hv.
  change ("--" +:+ "output" +:+ "=" +:+ ?v) with ("--output=" +:+ v) in Hk', Hv'.
  destruct (bool_decide (nth 0 params "" = "")); [discriminate|].
  destruct (negb (RenderSh.regular_file env (nth 0 params ""))); [discriminate|].
  destruct (negb _); [discriminate|].
  destruct (bool_decide (nth 1 params "" = "")); intros [= _ _ <-].
  - unfold parseArgs. cbn [parseArgs_from].
    rewrite (parseArg_flag _ _ _ Hk), Hv.
    eexists. split; [reflexivity|].
    repeat split;
      repeat first [rewrite lookup_insert_eq | rewrite lookup_insert_ne by discriminate
                   | rewrite lookup_empty];
      reflexivity.
  - unfold parseArgs. cbn [parseArgs_from].
    rewrite (parseArg_flag _ _ _ Hk), Hv, (parseArg_flag _ _ _ Hk'), Hv'.
    eexists. split; [reflexivity|].
    repeat split;
      repeat first [rewrite lookup_insert_eq | rewrite lookup_insert_ne by discriminate
                   | rewrite lookup_empty];
      reflexivity.
Qed.

Lemma launcher_arguments_parse_witness :
  let env := RenderSh.mkShell "/opt/remotion-renderer" (fun _ => false) (fun _ => true) in
  exists args,
    parseArgs ["--input='clip'.tsx"] = inr args
    /\ args !! "input" = Some (JStr "clip'.tsx")
    /\ args !! "output" = None
    /\ args !! "verbose" = None
    /\ args !! "_positional" = None.
Proof.
  intros env.
  apply (launcher_arguments_parse env ["'clip'.tsx"] "node"
           "/opt/remotion-renderer/renderer/render-cli.js" ["--input='clip'.tsx"]).
  reflexivity.
Defined.
